(** * youssef-portfolio: the serverless API, embedded and verified

    Shallow embedding of [api/gamesData.js], [api/_lib/utils.js],
    [api/_lib/auth.js], [api/admin/_require.js] and the admin handlers that
    call them, followed by the properties of the specification that concern
    them.

    Conventions.
    - A JavaScript string is a [string]; an [ascii] stands for one UTF-16 code
      unit below 256 (the Latin-1 range), which is where commas, digits and
      the white space removed by [trim] live.
    - [Date.now()] is a [Z] (milliseconds); the [Map] of the rate limiter is a
      [gmap string (list Z)].
    - Library and platform functions the repository calls but does not define
      (WHATWG [URL], [fetch], [Number::toString] outside the safe integers,
      [decodeURIComponent], jose's [jwtVerify]) are the fields of a record
      [Env] that every function using them receives.
    - Asynchronous code is sequential ([await] on every call), so it is
      modelled by a state-and-exception monad whose state is the list of
      outbound calls attempted so far.
    - A conversion that can throw ([String(x)] and [+x] on an object or an
      array) returns an [option], [None] standing for the exception. *)

From Stdlib Require Import Ascii ZArith QArith Qround.
From stdpp Require Import base gmap list strings pretty.

Set Warnings "-register-all".

Local Open Scope string_scope.
Local Open Scope list_scope.
Local Open Scope Z_scope.

(** ** JavaScript strings *)

(** White space and line terminators of ECMA-262 (what [String.prototype.trim]
    strips) among the code units below 256: TAB, LF, VT, FF, CR, SP, NBSP. *)
Definition is_js_space (c : ascii) : bool :=
  let n := nat_of_ascii c in
  ((9 <=? n) && (n <=? 13))%nat || (n =? 32)%nat || (n =? 160)%nat.

(** [\d] of a regular expression without the [u]/[v] flags: ASCII 0-9. *)
Definition is_digit (c : ascii) : bool :=
  let n := nat_of_ascii c in ((48 <=? n) && (n <=? 57))%nat.

Fixpoint trimStart (s : string) : string :=
  match s with
  | String c r => if is_js_space c then trimStart r else s
  | EmptyString => EmptyString
  end.

Fixpoint trimEnd (s : string) : string :=
  match s with
  | EmptyString => EmptyString
  | String c r =>
      match trimEnd r with
      | EmptyString => if is_js_space c then EmptyString else String c EmptyString
      | r' => String c r'
      end
  end.

(** [s.trim()] *)
Definition trim (s : string) : string := trimEnd (trimStart s).

(** [s.split(sep)] for a one-character separator: never the empty list. *)
Fixpoint split (sep : ascii) (s : string) : list string :=
  match s with
  | EmptyString => [EmptyString]
  | String c r =>
      if Ascii.eqb c sep then EmptyString :: split sep r
      else match split sep r with
           | p :: ps => String c p :: ps
           | [] => [String c EmptyString]
           end
  end.

(** [parts.join(sep)] *)
Fixpoint join (sep : string) (parts : list string) : string :=
  match parts with
  | [] => EmptyString
  | [p] => p
  | p :: ps => p +:+ sep +:+ join sep ps
  end.

Fixpoint all_digits (s : string) : bool :=
  match s with
  | EmptyString => true
  | String c r => is_digit c && all_digits r
  end.

(** [/^\d{1,20}$/.test(s)] *)
Definition re_digits_1_20 (s : string) : bool :=
  all_digits s && (1 <=? String.length s)%nat && (String.length s <=? 20)%nat.

(** [/^\d+$/.test(s)] *)
Definition re_digits_plus (s : string) : bool :=
  all_digits s && (1 <=? String.length s)%nat.

(** Truthiness of a string: [!s] is [true] exactly for the empty string. *)
Definition str_truthy (s : string) : bool :=
  match s with EmptyString => false | _ => true end.

(** ** gamesData.js: validatePlaceIds *)

(** The [for (const r of raw)] loop with its accumulator [out] and its
    [break]. *)
Fixpoint validatePlaceIds_loop (raw out : list string) : list string :=
  match raw with
  | [] => out
  | r :: rest =>
      let id := trim r in
      let out' := if re_digits_1_20 id then out ++ [id] else out in
      if (20 <=? length out')%nat then out' else validatePlaceIds_loop rest out'
  end.

Definition validatePlaceIds (idsStr : string) : list string :=
  if negb (str_truthy idsStr) then []
  else validatePlaceIds_loop (split "," idsStr) [].

(** The retained list as the specification words it: split on commas, trim
    every token, keep the tokens matching [^\d{1,20}$] in order, stop after
    the first 20. *)
Definition retained_spec (idsStr : string) : list string :=
  take 20 (List.filter re_digits_1_20 (map trim (split "," idsStr))).

(** ** utils.js: getClientIp *)

(** What the handlers read of a Node request. A header is [None] when
    [req.headers[name]] is [undefined]; [remoteAddress] is
    [req.socket && req.socket.remoteAddress]. *)
Record request := {
  method : string;
  url : string;
  h_host : option string;
  h_x_forwarded_for : option string;
  h_x_real_ip : option string;
  h_cookie : option string;
  h_x_csrf_token : option string;
  remoteAddress : option string
}.

(** [typeof h === 'string' && h.length] *)
Definition nonempty_header (h : option string) : option string :=
  match h with
  | Some s => if str_truthy s then Some s else None
  | None => None
  end.

(** [xs[0]] of a [split] result *)
Definition first_piece (xs : list string) : string :=
  match xs with p :: _ => p | [] => EmptyString end.

Definition getClientIp (req : request) : string :=
  match nonempty_header (h_x_forwarded_for req) with
  | Some xf => trim (first_piece (split "," xf))
  | None =>
      match nonempty_header (h_x_real_ip req) with
      | Some xr => trim xr
      | None =>
          match nonempty_header (remoteAddress req) with
          | Some a => a
          | None => "0.0.0.0"
          end
      end
  end.

(** ** gamesData.js: rateLimit *)

(** [bucket.filter(t => (now - t) < windowSec * 1000)] *)
Definition fresh_of (now windowSec : Z) (bucket : list Z) : list Z :=
  List.filter (fun t => now - t <? windowSec * 1000) bucket.

(** [rateLimit(ip, limit, windowSec)] reading the clock as [now]; returns the
    verdict and the updated [rateState]. *)
Definition rateLimit (ip : string) (limit windowSec : Z) (now : Z)
    (rateState : gmap string (list Z)) : bool * gmap string (list Z) :=
  let bucket := default [] (rateState !! ip) in
  let fresh := fresh_of now windowSec bucket in
  if limit <=? Z.of_nat (length fresh)
  then (false, <[ip := fresh]> rateState)
  else (true, <[ip := fresh ++ [now]]> rateState).

(** The limiter as the handler calls it: [rateLimit(ip, 30, 60)]. *)
Definition rateLimit_30_60 (ip : string) (now : Z) (rs : gmap string (list Z)) :=
  rateLimit ip 30 60 now rs.

(** States of the limiter that the process can be in: the empty [Map] it
    starts with, then whatever calls of the handler's [rateLimit(ip, 30, 60)]
    make of it. *)
Inductive reachable : gmap string (list Z) -> Prop :=
| reach_init : reachable ∅
| reach_call rs ip now :
    reachable rs -> reachable (rateLimit_30_60 ip now rs).2.

(** A run of calls by one address, all of them denied. *)
Fixpoint denied_run (ip : string) (nows : list Z) (rs : gmap string (list Z))
  : option (gmap string (list Z)) :=
  match nows with
  | [] => Some rs
  | now :: rest =>
      let '(ok, rs') := rateLimit_30_60 ip now rs in
      if ok then None else denied_run ip rest rs'
  end.

(** ** Numbers and JSON values *)

(** A number that [JSON.parse] can produce, by its exact value: a finite
    double (every one is a rational), or an infinity (from a literal such as
    [1e999]). [NaN] has no JSON text, and [-0] is not told apart from [0] by
    any code modelled here. *)
Inductive number :=
| Finite (q : Q)
| PosInf
| NegInf.

(** The result of [res.json()]. An object lists its own properties, each key
    once. *)
Inductive value :=
| VNull
| VBool (b : bool)
| VNum (n : number)
| VStr (s : string)
| VArr (items : list value)
| VObj (props : list (string * value)).

(** What the repository calls without defining it. *)
Inductive fetch_outcome :=
| NetworkError                                  (* [fetch] rejects *)
| TimedOut                                      (* the [AbortController] fires *)
| RedirectRefused                               (* [redirect: 'error'] *)
| Response (status : Z) (body : option value).  (* [None]: [res.json()] rejects *)

Record Env := {
  (** [new URL(url).host]; [None] when the constructor throws *)
  URL_host : string -> option string;
  (** [new URL(url, base).searchParams.get('ids')]; [None] when the
      constructor throws, [Some None] when the parameter is absent *)
  URL_searchParam_ids : string -> string -> option (option string);
  (** [Number::toString] of a finite number that is not a safe integer *)
  number_repr : Q -> string;
  (** the answer to the [n]-th outbound call of a request, made to [url] *)
  fetch : nat -> string -> fetch_outcome;
  (** [decodeURIComponent]; [None] when it throws [URIError] *)
  decodeURIComponent : string -> option string;
  (** jose's [jwtVerify(token, secret)]: the payload of a token whose
      signature and time claims it accepts, [None] when it rejects *)
  jwtVerify : string -> string -> option value
}.

Definition Q_is_integer (q : Q) : bool := Qnum q mod Zpos (Qden q) =? 0.

(** [String(n)] for a number: the decimal digits of a safe integer. *)
Definition NumberToString (E : Env) (n : number) : string :=
  match n with
  | PosInf => "Infinity"
  | NegInf => "-Infinity"
  | Finite q =>
      if Q_is_integer q && (Z.abs (Qfloor q) <? 2 ^ 53)
      then pretty (Qfloor q)
      else number_repr E q
  end.

Fixpoint assoc {V : Type} (k : string) (props : list (string * V)) : option V :=
  match props with
  | [] => None
  | (k', v) :: rest => if String.eqb k k' then Some v else assoc k rest
  end.

(** [String(v)] for a JSON value; [None] when it throws. An object is
    converted by the [toString] it finds: the one of [Object.prototype],
    unless the object has an own property of that name, which (a JSON value)
    is not callable; [valueOf] then gives the object back and the conversion
    ends in a [TypeError]. An array joins the strings of its elements with
    commas, a [null] element giving the empty string, and throws when an
    element does. *)
Fixpoint ToString (E : Env) (v : value) : option string :=
  match v with
  | VNull => Some "null"
  | VBool true => Some "true"
  | VBool false => Some "false"
  | VNum n => Some (NumberToString E n)
  | VStr s => Some s
  | VArr items =>
      let fix elements (l : list value) : option (list string) :=
        match l with
        | [] => Some []
        | e :: rest =>
            match (match e with VNull => Some "" | _ => ToString E e end) with
            | Some s =>
                match elements rest with
                | Some ss => Some (s :: ss)
                | None => None
                end
            | None => None
            end
        end in
      match elements items with
      | Some ss => Some (join "," ss)
      | None => None
      end
  | VObj props =>
      match assoc "toString" props with
      | Some _ => None
      | None => Some "[object Object]"
      end
  end.

(** [!!v] *)
Definition truthy (v : value) : bool :=
  match v with
  | VNull => false
  | VBool b => b
  | VNum (Finite q) => negb (Qnum q =? 0)
  | VNum _ => true
  | VStr s => str_truthy s
  | VArr _ | VObj _ => true
  end.

(** [v.k] for the property names this code reads ([data], [id], [name],
    [visits], [universeId], [targetId], [imageUrl]): an own property of an
    object, [undefined] ([None]) on anything else. Only evaluated on truthy
    values, as in the source. *)
Definition get_prop (v : value) (k : string) : option value :=
  match v with
  | VObj props => assoc k props
  | _ => None
  end.

(** [x != null] for a property that may be [undefined] *)
Definition not_nullish (x : option value) : bool :=
  match x with
  | None | Some VNull => false
  | Some _ => true
  end.

(** [x ?? null] *)
Definition or_null (x : option value) : value := default VNull x.

(** ** Integer-valued doubles: the accumulator [total] *)

(** [total] starts at 0 and only ever receives [Math.floor] of finite doubles,
    so it is an integer or an infinity. *)
Inductive dbl :=
| DInt (z : Z)
| DPosInf
| DNegInf.

(** Rounding of an exact integer to the nearest double, ties to even;
    beyond the largest double, overflow. *)
Definition round_to_double (z : Z) : dbl :=
  let a := Z.abs z in
  let k := Z.log2 a - 52 in
  if k <=? 0 then DInt z
  else
    let q := Z.shiftr a k in
    let r := Z.land a (Z.ones k) in
    let half := Z.shiftl 1 (k - 1) in
    let q' := if (half <? r) || ((r =? half) && Z.odd q) then q + 1 else q in
    let m := Z.shiftl q' k in
    if 2 ^ 1024 <=? m then (if 0 <? z then DPosInf else DNegInf)
    else DInt (Z.sgn z * m).

(** [total + x] for an integer-valued finite double [x] *)
Definition dbl_add (total : dbl) (x : Z) : dbl :=
  match total with
  | DInt a => round_to_double (a + x)
  | inf => inf
  end.

Definition dbl_number (d : dbl) : number :=
  match d with
  | DInt z => Finite (inject_Z z)
  | DPosInf => PosInf
  | DNegInf => NegInf
  end.

(** ** Plain objects used as maps *)

(** [universeMap]: own string-keyed properties in creation order. *)
Fixpoint obj_set {V : Type} (k : string) (v : V) (o : list (string * V))
  : list (string * V) :=
  match o with
  | [] => [(k, v)]
  | (k', v') :: rest =>
      if String.eqb k k' then (k, v) :: rest else (k', v') :: obj_set k v rest
  end.

Fixpoint digits_value (acc : Z) (s : string) : Z :=
  match s with
  | EmptyString => acc
  | String c r => digits_value (10 * acc + (Z.of_nat (nat_of_ascii c) - 48)) r
  end.

(** An array index: the canonical decimal string of an integer below
    [2^32 - 1]. Such keys are enumerated first, in ascending order. *)
Definition array_index (k : string) : option Z :=
  let n := digits_value 0 k in
  if all_digits k && String.eqb (pretty n) k && (n <? 2 ^ 32 - 1)
  then Some n else None.

Fixpoint insert_by_index {V : Type} (e : Z * V) (l : list (Z * V)) : list (Z * V) :=
  match l with
  | [] => [e]
  | e' :: rest =>
      if e.1 <=? e'.1 then e :: l else e' :: insert_by_index e rest
  end.

Fixpoint index_props {V : Type} (o : list (string * V)) : list (Z * V) :=
  match o with
  | [] => []
  | (k, v) :: rest =>
      match array_index k with
      | Some n => insert_by_index (n, v) (index_props rest)
      | None => index_props rest
      end
  end.

Fixpoint named_props {V : Type} (o : list (string * V)) : list V :=
  match o with
  | [] => []
  | (k, v) :: rest =>
      match array_index k with
      | Some _ => named_props rest
      | None => v :: named_props rest
      end
  end.

(** [Object.values(o)]: array-index keys ascending, then the other keys in
    creation order. *)
Definition Object_values {V : Type} (o : list (string * V)) : list V :=
  map snd (index_props o) ++ named_props o.

Definition mem (x : string) (xs : list string) : bool :=
  existsb (String.eqb x) xs.

(** [[...new Set(xs)]]: first occurrences, in order. *)
Fixpoint set_spread (seen xs : list string) : list string :=
  match xs with
  | [] => []
  | x :: rest =>
      if mem x seen then set_spread seen rest
      else x :: set_spread (x :: seen) rest
  end.

(** ** Outbound calls: a state-and-exception monad *)

(** The state is the list of URLs handed to [fetch] so far, oldest first. *)
Inductive outcome (A : Type) :=
| Ok (a : A)
| Thrown.
Arguments Ok {A} a.
Arguments Thrown {A}.

Definition M (A : Type) : Type := list string -> outcome A * list string.

Definition ret {A : Type} (a : A) : M A := fun tr => (Ok a, tr).

Definition bind {A B : Type} (m : M A) (f : A -> M B) : M B :=
  fun tr =>
    match m tr with
    | (Ok a, tr') => f a tr'
    | (Thrown, tr') => (Thrown, tr')
    end.

Notation "'let*' x ':=' m 'in' k" := (bind m (fun x => k))
  (at level 10, x name, m at level 100, k at level 200, only parsing).

(** A step that makes no call and may throw ([None]). *)
Definition lift {A : Type} (x : option A) : M A :=
  fun tr => (match x with Some a => Ok a | None => Thrown end, tr).

(** ** gamesData.js: fetchJson and placeToUniverseId *)

Definition ALLOWED_HOSTS : list string :=
  ["apis.roblox.com"; "games.roblox.com"; "thumbnails.roblox.com"].

(** [res.ok] *)
Definition res_ok (status : Z) : bool := (200 <=? status) && (status <=? 299).

(** What the [try] block of [fetchJson] evaluates to, given the answer. *)
Definition json_of_outcome (o : fetch_outcome) : value :=
  match o with
  | Response status body =>
      if res_ok status then
        match body with
        | Some v => v
        | None => VNull
        end
      else VNull
  | NetworkError | TimedOut | RedirectRefused => VNull
  end.

Definition fetchJson (E : Env) (url : string) : M value :=
  fun tr =>
    match URL_host E url with
    | None => (Thrown, tr)
    | Some host =>
        if negb (mem host ALLOWED_HOSTS) then (Ok VNull, tr)
        else (Ok (json_of_outcome (fetch E (length tr) url)), tr ++ [url])
    end.

Definition universe_url (placeId : string) : string :=
  "https://apis.roblox.com/universes/v1/places/" +:+ placeId +:+ "/universe".

Definition is_number (x : option value) : bool :=
  match x with Some (VNum _) => true | _ => false end.

Definition is_digit_string (x : option value) : bool :=
  match x with Some (VStr s) => re_digits_plus s | _ => false end.

(** The value [placeToUniverseId] returns for a place, given what
    [fetchJson] gave. *)
Definition universe_of (E : Env) (placeId : string) (data : value) : option string :=
  let universeId := if truthy data then get_prop data "universeId" else None in
  if truthy data && is_number universeId then ToString E (or_null universeId)
  else if truthy data && is_digit_string universeId then ToString E (or_null universeId)
  else Some placeId.

Definition placeToUniverseId (E : Env) (placeId : string) : M string :=
  let* data := fetchJson E (universe_url placeId) in
  lift (universe_of E placeId data).

(** ** gamesData.js: the handler *)

(** [for (const pid of placeIds) universeMap[pid] = await placeToUniverseId(pid)] *)
Fixpoint resolve_all (E : Env) (placeIds : list string)
    (universeMap : list (string * string)) : M (list (string * string)) :=
  match placeIds with
  | [] => ret universeMap
  | pid :: rest =>
      let* uid := placeToUniverseId E pid in
      resolve_all E rest (obj_set pid uid universeMap)
  end.

Definition games_url (uniqueUniverses : list string) : string :=
  "https://games.roblox.com/v1/games?universeIds=" +:+ join "," uniqueUniverses.

Definition icons_url (uniqueUniverses : list string) : string :=
  "https://thumbnails.roblox.com/v1/games/icons?universeIds="
  +:+ join "," uniqueUniverses +:+ "&size=420x420&format=Png&isCircular=false".

(** [infoData && Array.isArray(infoData.data)] and likewise for [iconData] *)
Definition data_array (d : value) : list value :=
  match (if truthy d then get_prop d "data" else None) with
  | Some (VArr items) => items
  | _ => []
  end.

(** [gameInfo[k] = v]. Assigning to [__proto__] creates no own property; the
    object assigned there has only the properties [name] and [visits], which
    no canonical identifier names. *)
Definition info_set (k : string) (v : value * value)
    (gameInfo : gmap string (value * value)) : gmap string (value * value) :=
  if String.eqb k "__proto__" then gameInfo else <[k := v]> gameInfo.

(** The body of the loop over [infoData.data]; an entry is [(name, visits)].
    [None] when [String(g.id)] throws. *)
Definition gameInfo_step (E : Env) (gameInfo : gmap string (value * value))
    (g : value) : option (gmap string (value * value)) :=
  let id := if truthy g then get_prop g "id" else None in
  if truthy g && not_nullish id
  then match ToString E (or_null id) with
       | Some k =>
           Some (info_set k (or_null (get_prop g "name"), or_null (get_prop g "visits"))
                   gameInfo)
       | None => None
       end
  else Some gameInfo.

(** [for (const g of infoData.data) ...], left by the first exception. *)
Fixpoint gameInfo_loop (E : Env) (items : list value)
    (gameInfo : gmap string (value * value)) : option (gmap string (value * value)) :=
  match items with
  | [] => Some gameInfo
  | g :: rest =>
      match gameInfo_step E gameInfo g with
      | Some gameInfo' => gameInfo_loop E rest gameInfo'
      | None => None
      end
  end.

Definition gameInfo_of (E : Env) (infoData : value)
  : option (gmap string (value * value)) :=
  gameInfo_loop E (data_array infoData) ∅.

(** [gameIcons]: its own properties and the object it inherits from, once
    one coming from the upstream body has been put there through
    [__proto__] ([None]: [Object.prototype] still). *)
Record icons := {
  own : gmap string value;
  proto : option value
}.

Definition icons_empty : icons := {| own := ∅; proto := None |}.

(** Whether an assignment to [gameIcons.__proto__] finds a data property of
    that name: an own one, or one the prototype owns (a JSON object may have
    such a key). *)
Definition has_data_proto (o : icons) : bool :=
  match own o !! "__proto__" with
  | Some _ => true
  | None =>
      match proto o with
      | Some (VObj props) =>
          match assoc "__proto__" props with Some _ => true | None => false end
      | _ => false
      end
  end.

(** [gameIcons[k] = v]. An assignment to [__proto__] that finds no data
    property of that name reaches the accessor of [Object.prototype], whose
    setter makes an object or an array the prototype and ignores any other
    value; every other assignment writes an own property. *)
Definition icons_set (k : string) (v : value) (o : icons) : icons :=
  if String.eqb k "__proto__" && negb (has_data_proto o) then
    match v with
    | VObj _ | VArr _ => {| own := own o; proto := Some v |}
    | _ => o
    end
  else {| own := <[k := v]> (own o); proto := proto o |}.

(** A property of a prototype taken from a JSON body, for the keys looked up
    here (strings of numbers): an own property of an object, an element of an
    array. *)
Definition inherited (p : value) (k : string) : option value :=
  match p with
  | VObj props => assoc k props
  | VArr items =>
      match array_index k with
      | Some n => items !! Z.to_nat n
      | None => None
      end
  | _ => None
  end.

(** [gameIcons[k]] *)
Definition icons_get (k : string) (o : icons) : option value :=
  match own o !! k with
  | Some v => Some v
  | None =>
      match proto o with
      | Some p => inherited p k
      | None => None
      end
  end.

(** The body of the loop over [iconData.data]; [None] when
    [String(i.targetId)] throws. *)
Definition gameIcons_step (E : Env) (gameIcons : icons) (i : value) : option icons :=
  let targetId := if truthy i then get_prop i "targetId" else None in
  let imageUrl := if truthy i then get_prop i "imageUrl" else None in
  if truthy i && not_nullish targetId && truthy (or_null imageUrl)
  then match ToString E (or_null targetId) with
       | Some k => Some (icons_set k (or_null imageUrl) gameIcons)
       | None => None
       end
  else Some gameIcons.

Fixpoint gameIcons_loop (E : Env) (items : list value) (gameIcons : icons)
  : option icons :=
  match items with
  | [] => Some gameIcons
  | i :: rest =>
      match gameIcons_step E gameIcons i with
      | Some gameIcons' => gameIcons_loop E rest gameIcons'
      | None => None
      end
  end.

Definition gameIcons_of (E : Env) (iconData : value) : option icons :=
  gameIcons_loop E (data_array iconData) icons_empty.

(** One element of [data]. [universeId] is [None] when [universeMap[pid]] is
    [undefined]. *)
Record record := {
  inputId : string;
  universeId : option string;
  name : value;
  visits : value;
  icon : value
}.

(** An [undefined] used as a property key *)
Definition key_of (uid : option string) : string := default "undefined" uid.

(** [v || null] *)
Definition or_else_null (x : option value) : value :=
  match x with
  | Some v => if truthy v then v else VNull
  | None => VNull
  end.

(** [{ inputId: pid, universeId: uid, name: info.name, visits: info.visits, icon }] *)
Definition join_record (universeMap : list (string * string))
    (gameInfo : gmap string (value * value)) (gameIcons : icons)
    (pid : string) : record :=
  let uid := assoc pid universeMap in
  let info := default (VNull, VNull) (gameInfo !! key_of uid) in
  {| inputId := pid; universeId := uid; name := info.1; visits := info.2;
     icon := or_else_null (icons_get (key_of uid) gameIcons) |}.

(** [typeof v === 'number' && Number.isFinite(v)], giving [Math.floor(v)] *)
Definition counted (v : value) : option Z :=
  match v with
  | VNum (Finite q) => Some (Qfloor q)
  | _ => None
  end.

(** The join loop with its accumulators [out] and [total]. *)
Fixpoint join_loop (universeMap : list (string * string))
    (gameInfo : gmap string (value * value)) (gameIcons : icons)
    (placeIds : list string) (out : list record) (total : dbl)
  : list record * dbl :=
  match placeIds with
  | [] => (out, total)
  | pid :: rest =>
      let r := join_record universeMap gameInfo gameIcons pid in
      let total' :=
        match counted (visits r) with
        | Some x => dbl_add total x
        | None => total
        end in
      join_loop universeMap gameInfo gameIcons rest (out ++ [r]) total'
  end.

(** The value handed to [json] (before [JSON.stringify]) or the text handed
    to [res.end]. *)
Inductive body :=
| BEmpty                                         (* [{}] *)
| BError (error : string) (code : option Z)      (* [{ ok: false, error, code }] *)
| BNotFound                                      (* [{ error: 'Not Found' }] *)
| BData (data : list record) (totalVisits : string) (count : nat)
                                                 (* [{ ok: true, data, totalVisits, count }] *)
| BHtml (html : string)
| BLoginPage.                                    (* the constant [HTML] *)

Record response := {
  status : Z;
  payload : body;
  cache_control : option string
}.

(** The [try] block of the handler. *)
Definition aggregate (E : Env) (placeIds : list string) : M response :=
  let* universeMap := resolve_all E placeIds [] in
  let uniqueUniverses := set_spread [] (Object_values universeMap) in
  let* infoData := fetchJson E (games_url uniqueUniverses) in
  let* iconData := fetchJson E (icons_url uniqueUniverses) in
  let* gameInfo := lift (gameInfo_of E infoData) in
  let* gameIcons := lift (gameIcons_of E iconData) in
  let '(out, total) := join_loop universeMap gameInfo gameIcons placeIds [] (DInt 0) in
  ret {| status := 200;
         payload := BData out (NumberToString E (dbl_number total)) (length out);
         cache_control := Some "public, max-age=60, s-maxage=60" |}.

Definition error_response (st : Z) (msg : string) (code : option Z) : response :=
  {| status := st; payload := BError msg code; cache_control := None |}.

(** How a handler ends: it wrote a response, it returned without writing one,
    or it threw outside every [try]. *)
Inductive ending :=
| Responded (r : response)
| Silent
| Rejected.

(** What one request leaves behind. *)
Record run := {
  result : ending;
  rateState_after : gmap string (list Z);
  calls : list string
}.

(** [module.exports] of gamesData.js, the clock reading [now] at the
    [rateLimit] call. The CORS headers are not part of the model. *)
Definition gamesData (E : Env) (req : request) (now : Z)
    (rateState : gmap string (list Z)) : run :=
  if String.eqb (method req) "OPTIONS" then
    {| result := Responded {| status := 204; payload := BEmpty; cache_control := None |};
       rateState_after := rateState; calls := [] |}
  else if negb (String.eqb (method req) "GET") then
    {| result := Responded (error_response 405 "Method not allowed" None);
       rateState_after := rateState; calls := [] |}
  else
    let ip := getClientIp req in
    let '(allowed, rateState') := rateLimit ip 30 60 now rateState in
    if negb allowed then
      {| result := Responded (error_response 429
                     "Rate limit exceeded. Please try again later." (Some 429));
         rateState_after := rateState'; calls := [] |}
    else
      match URL_searchParam_ids E (url req)
              ("https://" +:+ default "localhost" (nonempty_header (h_host req))) with
      | None => {| result := Rejected; rateState_after := rateState'; calls := [] |}
      | Some ids =>
          let placeIds := validatePlaceIds (default "" ids) in
          match placeIds with
          | [] =>
              {| result := Responded (error_response 400
                             "No valid place IDs provided. IDs must be numeric." (Some 400));
                 rateState_after := rateState'; calls := [] |}
          | _ :: _ =>
              match aggregate E placeIds [] with
              | (Ok r, tr) =>
                  {| result := Responded r; rateState_after := rateState'; calls := tr |}
              | (Thrown, tr) =>
                  {| result := Responded (error_response 500
                        "An error occurred while fetching game data. Please try again."
                        (Some 500));
                     rateState_after := rateState'; calls := tr |}
              end
          end
      end.

(** ** auth.js *)

(** [process.env], as far as the admin gate reads it ([None]: unset). *)
Record process_env := {
  ADMIN_ALLOWLIST : option string;
  ADMIN_JWT_SECRET : option string
}.

Definition COOKIE_NAME : string := "yd_admin".
Definition CSRF_COOKIE : string := "yd_csrf".

(** [(process.env.ADMIN_ALLOWLIST || '').split(',').map(s => s.trim()).filter(Boolean)] *)
Definition parseAllowlist (env : process_env) : list string :=
  List.filter str_truthy (map trim (split "," (default "" (ADMIN_ALLOWLIST env)))).

Definition isIpAllowed (env : process_env) (req : request) : bool :=
  let ip := getClientIp req in
  let allow := parseAllowlist env in
  match allow with
  | [] => false
  | _ :: _ => mem ip allow || mem "::1" allow || mem "127.0.0.1" allow
  end.

(** [getJwtSecret()]; the key bytes are identified with the secret they
    encode. *)
Definition getJwtSecret (env : process_env) : option string :=
  match ADMIN_JWT_SECRET env with
  | Some secret =>
      if negb (str_truthy secret) || (String.length secret <? 16)%nat then None
      else Some secret
  | None => None
  end.

(** utils.js: the body of the [forEach] of [parseCookies]. A cookie named
    [__proto__] creates no own property (its value is a string). *)
Definition parseCookies_step (E : Env) (acc : outcome (gmap string string))
    (part : string) : outcome (gmap string string) :=
  match acc with
  | Thrown => Thrown
  | Ok out =>
      match split "=" (trim part) with
      | [] => Ok out
      | k :: rest =>
          if negb (str_truthy k) then Ok out
          else
            match decodeURIComponent E (join "=" rest) with
            | None => Thrown
            | Some v => if String.eqb k "__proto__" then Ok out else Ok (<[k := v]> out)
            end
      end
  end.

Definition parseCookies (E : Env) (req : request) : outcome (gmap string string) :=
  foldl (parseCookies_step E) (Ok ∅) (split ";" (default "" (nonempty_header (h_cookie req)))).

(** The object [requireAdmin] resolves to. *)
Inductive auth :=
| AuthFail (reason : string)
| AuthOk (payload : value) (csrf : option string).

Definition auth_ok (a : auth) : bool :=
  match a with AuthOk _ _ => true | AuthFail _ => false end.

Definition requireAdmin (E : Env) (env : process_env) (req : request) : outcome auth :=
  if negb (isIpAllowed env req) then Ok (AuthFail "ip")
  else
    match getJwtSecret env with
    | None => Ok (AuthFail "secret")
    | Some secret =>
        match parseCookies E req with
        | Thrown => Thrown
        | Ok cookies =>
            match nonempty_header (cookies !! COOKIE_NAME) with
            | None => Ok (AuthFail "token")
            | Some token =>
                match jwtVerify E token secret with
                | Some payload =>
                    Ok (AuthOk payload (nonempty_header (cookies !! CSRF_COOKIE)))
                | None => Ok (AuthFail "invalid")
                end
            end
        end
    end.

(** ** admin/_require.js and the admin handlers *)

(** The object [requireAdminOr404] resolves to. *)
Record gate := {
  gate_ok : bool;
  gate_ended : bool;
  gate_auth : auth
}.

Definition isWrite (m : string) : bool :=
  String.eqb m "POST" || String.eqb m "PUT" || String.eqb m "DELETE" || String.eqb m "PATCH".

(** [requireAdminOr404(req, res)] with its default option
    [requireCsrfForWrite = true]: the gate object and the response it wrote
    on [res], if any. [req.method || 'GET'] is the method itself for the four
    names compared with. *)
Definition requireAdminOr404 (E : Env) (env : process_env) (req : request)
  : outcome (gate * option response) :=
  match requireAdmin E env req with
  | Thrown => Thrown
  | Ok a =>
      match a with
      | AuthFail _ => Ok ({| gate_ok := false; gate_ended := true; gate_auth := a |}, None)
      | AuthOk _ csrf =>
          let csrfHeader := nonempty_header (h_x_csrf_token req) in
          if isWrite (method req)
             && negb (match csrfHeader, csrf with
                      | Some h, Some c => String.eqb h c
                      | _, _ => false
                      end)
          then Ok ({| gate_ok := false; gate_ended := true; gate_auth := a |},
                   Some (error_response 403 "Invalid CSRF token" None))
          else Ok ({| gate_ok := true; gate_ended := false; gate_auth := a |}, None)
      end
  end.

Definition not_found_json : response :=
  {| status := 404; payload := BNotFound; cache_control := None |}.

(** How the pricing and reviews admin handlers start: [None] when the gate
    lets the request through to the database code, otherwise how the handler
    ends. *)
Definition admin_crud_gate (E : Env) (env : process_env) (req : request)
  : option ending :=
  match requireAdminOr404 E env req with
  | Thrown => Some Rejected
  | Ok (g, written) =>
      if negb (gate_ok g) then
        if gate_ended g then
          Some (match written with Some r => Responded r | None => Silent end)
        else Some (Responded not_found_json)
      else None
  end.

(** How login.js and logout.js start: [None] when the address is allowed and
    the handler goes on. *)
Definition login_logout_gate (env : process_env) (req : request) : option ending :=
  if negb (isIpAllowed env req) then Some (Responded not_found_json) else None.

(** [module.exports] of page-login.js. *)
Definition page_login (env : process_env) (req : request) : ending :=
  if negb (isIpAllowed env req) then
    Responded {| status := 404;
                 payload := BHtml "<!doctype html><title>404 Not Found</title><h1>Not Found</h1>";
                 cache_control := None |}
  else
    Responded {| status := 200; payload := BLoginPage; cache_control := Some "no-store" |}.

(** ** A concrete environment and concrete requests *)

Module Sample.

(** A host parser good enough for [https://host/...] URLs whose host needs no
    normalisation: the text between the scheme and the next [/]. *)
Fixpoint upto_slash (s : string) : string :=
  match s with
  | EmptyString => EmptyString
  | String c r => if Ascii.eqb c "/" then EmptyString else String c (upto_slash r)
  end.

Definition host (u : string) : option string :=
  match u with
  | String "h" (String "t" (String "t" (String "p" (String "s"
      (String ":" (String "/" (String "/" r))))))) => Some (upto_slash r)
  | _ => None
  end.

(** The text after [?ids=], if the URL has it. *)
Fixpoint ids_of (s : string) : option string :=
  match s with
  | String "?" (String "i" (String "d" (String "s" (String "=" r)))) => Some r
  | String _ r => ids_of r
  | EmptyString => None
  end.

Definition obj_universe (u : string) : value := VObj [("universeId", VStr u)].

Definition game (id : string) (nm : string) (v : value) : value :=
  VObj [("id", VStr id); ("name", VStr nm); ("visits", v)].

(** The upstream of the example in the specification: places 123 and 456
    resolve to universes 1001 and 1002; [visits] of the second game is not a
    number; the icon service is down. *)
Definition upstream (visits1 : value) (n : nat) (u : string) : fetch_outcome :=
  if String.eqb u (universe_url "123") then Response 200 (Some (obj_universe "1001"))
  else if String.eqb u (universe_url "456") then Response 200 (Some (obj_universe "1002"))
  else if String.eqb u (games_url ["1001"; "1002"]) then
    Response 200 (Some (VObj [("data",
      VArr [game "1001" "A" visits1; game "1002" "B" (VStr "bad")])]))
  else NetworkError.

Definition env_for (visits1 : value) : Env :=
  {| URL_host := host;
     URL_searchParam_ids := fun u _ => Some (ids_of u);
     number_repr := fun _ => "?";
     fetch := upstream visits1;
     decodeURIComponent := Some;
     jwtVerify := fun token secret =>
       if String.eqb token "signed" && String.eqb secret "0123456789abcdef"
       then Some (VObj [("username", VStr "admin")]) else None |}.

Definition E : Env := env_for (VNum (Finite 100)).



Definition get (u : string) (ip : string) : request :=
  {| method := "GET"; url := u; h_host := Some "example.org";
     h_x_forwarded_for := Some ip; h_x_real_ip := None; h_cookie := None;
     h_x_csrf_token := None; remoteAddress := Some "10.0.0.1" |}.

Definition req : request := get "/api/gamesData?ids=123,123,456" "203.0.113.7".

(** Thirty admitted requests, one per second from time 1000. *)
Definition full_bucket : list Z := map (fun i => 1000 * Z.of_nat i) (seq 1 30).

Definition busy : gmap string (list Z) := {[ "203.0.113.7" := full_bucket ]}.

(** The limiter after those thirty requests, starting from the empty map. *)
Definition warm : gmap string (list Z) :=
  foldl (fun rs now => (rateLimit_30_60 "203.0.113.7" now rs).2) ∅ full_bucket.

Definition penv : process_env :=
  {| ADMIN_ALLOWLIST := Some "154.238.160.118,127.0.0.1";
     ADMIN_JWT_SECRET := Some "0123456789abcdef" |}.

Definition penv_strict : process_env :=
  {| ADMIN_ALLOWLIST := Some "154.238.160.118";
     ADMIN_JWT_SECRET := Some "0123456789abcdef" |}.

Definition admin_req (m : string) (ip : string) (csrf : option string) : request :=
  {| method := m; url := "/api/admin/pricing"; h_host := Some "example.org";
     h_x_forwarded_for := Some ip; h_x_real_ip := None;
     h_cookie := Some "yd_admin=signed; yd_csrf=abc";
     h_x_csrf_token := csrf; remoteAddress := Some "10.0.0.1" |}.

End Sample.

(** ** Specification-side vocabulary *)

(** Timestamps of a bucket that lie within the 60 seconds before [now]. *)
Definition recent (now : Z) (bucket : list Z) : list Z :=
  List.filter (fun t => (now - 60000 <? t) && (t <=? now)) bucket.

(** The text of a header before its first comma. *)
Fixpoint before_comma (s : string) : string :=
  match s with
  | EmptyString => EmptyString
  | String c r => if Ascii.eqb c "," then EmptyString else String c (before_comma r)
  end.

(** The double-submit check fails: there is no non-empty header equal to the
    CSRF cookie. *)
Definition csrf_mismatch (header cookie : option string) : Prop :=
  forall t, header = Some t -> t = EmptyString \/ cookie <> Some t.

(** A header that is not sent, or sent empty. *)
Definition absent (h : option string) : Prop := h = None \/ h = Some EmptyString.

(** [URL] gives the three upstream hosts for the URLs built on them. *)
Definition parses_hosts (E : Env) : Prop :=
  forall rest,
    URL_host E ("https://apis.roblox.com/" +:+ rest) = Some "apis.roblox.com" /\
    URL_host E ("https://games.roblox.com/" +:+ rest) = Some "games.roblox.com" /\
    URL_host E ("https://thumbnails.roblox.com/" +:+ rest) = Some "thumbnails.roblox.com".

(** The answers the specification calls failures: a network error, a
    timeout, a redirect, a status outside 200-299, a body that is not JSON. *)
Definition failure (o : fetch_outcome) : Prop :=
  o = NetworkError \/ o = TimedOut \/ o = RedirectRefused \/
  (exists status body, o = Response status body /\ ~ (200 <= status <= 299)) \/
  (exists status, o = Response status None).

(** The [universeId] of a successful lookup, when the body is an object
    carrying one that is a number or an all-digit string. *)
Definition upstream_universeId (o : fetch_outcome) : option value :=
  match o with
  | Response status (Some (VObj props)) =>
      if res_ok status then
        match assoc "universeId" props with
        | Some (VNum n) => Some (VNum n)
        | Some (VStr s) => if re_digits_plus s then Some (VStr s) else None
        | _ => None
        end
      else None
  | _ => None
  end.

(** The elements of a batch body: the array under [data] of a body that is
    an object, nothing for any other body. *)
Definition entries (body : value) : list value :=
  match body with
  | VObj props =>
      match assoc "data" props with
      | Some (VArr items) => items
      | _ => []
      end
  | _ => []
  end.

(** A field of an element, [null] when the element is not an object or has
    no such field. *)
Definition field (x : value) (k : string) : value :=
  match x with
  | VObj props => default VNull (assoc k props)
  | _ => VNull
  end.

(** The element is an object whose identifier field ([id] for metadata,
    [targetId] for icons) is present, not [null], and reads [k] as a string. *)
Definition filed_under (E : Env) (idfield k : string) (x : value) : bool :=
  match x with
  | VObj props =>
      match assoc idfield props with
      | None | Some VNull => false
      | Some v =>
          match ToString E v with
          | Some s => String.eqb s k
          | None => false
          end
      end
  | _ => false
  end.

(** The element is an object whose identifier field is present and not
    [null] but has no string: converting it throws. *)
Definition unconvertible (E : Env) (idfield : string) (x : value) : bool :=
  match x with
  | VObj props =>
      match assoc idfield props with
      | None | Some VNull => false
      | Some v =>
          match ToString E v with
          | Some _ => false
          | None => true
          end
      end
  | _ => false
  end.


(** The metadata of a canonical identifier: the last element of the metadata
    body filed under it. *)
Definition metadata_for (E : Env) (infoData : value) (uid : string) : option value :=
  last (List.filter (filed_under E "id" uid) (entries infoData)).





(** Sum of [Math.floor] of the finite numeric visit counts; the others
    contribute 0. *)
Definition floor_sum (data : list record) : Z :=
  foldr (fun r acc => default 0 (counted (visits r)) + acc) 0 data.

(** The same sum with truncation toward zero in place of the floor. *)
Definition truncated (v : value) : option Z :=
  match v with
  | VNum (Finite q) => Some (Qnum q ÷ Zpos (Qden q))
  | _ => None
  end.

Definition trunc_sum (data : list record) : Z :=
  foldr (fun r acc => default 0 (truncated (visits r)) + acc) 0 data.

(** What the join loop makes of [total] over the records it pushes. *)
Fixpoint accumulate (data : list record) (total : dbl) : dbl :=
  match data with
  | [] => total
  | r :: rest =>
      accumulate rest
        match counted (visits r) with
        | Some x => dbl_add total x
        | None => total
        end
  end.

(** No bucket of the limiter holds more than 30 timestamps. *)
Definition bounded (rs : gmap string (list Z)) : Prop :=
  forall k b, rs !! k = Some b -> (length b <= 30)%nat.

Fixpoint starts_with (p s : string) : bool :=
  match p, s with
  | EmptyString, _ => true
  | String a p', String b s' => Ascii.eqb a b && starts_with p' s'
  | String _ _, EmptyString => false
  end.

Definition is_games_call (u : string) : bool :=
  starts_with "https://games.roblox.com/v1/games?universeIds=" u.

Definition is_icons_call (u : string) : bool :=
  starts_with "https://thumbnails.roblox.com/v1/games/icons?universeIds=" u.

(** * More of the code *)

(** ** What the remaining handlers call without defining it *)

Record Platform := {
  (** [encodeURIComponent] (total on strings without lone surrogates) *)
  encodeURIComponent : string -> string;
  (** [JSON.parse]; [None] when it throws *)
  JSON_parse : string -> option value;
  (** bcryptjs' [compare(password, hash)] *)
  bcrypt_compare : string -> string -> bool;
  (** jose's [new SignJWT({ username, userId }).setProtectedHeader({ alg: 'HS256' })
      .setIssuedAt(iat).setExpirationTime(exp).sign(secret)]; [None] when it
      rejects *)
  SignJWT_sign : string -> Z -> Z -> Z -> string -> option string;
  (** [crypto.randomBytes(n).toString('hex')], as drawn for this request *)
  randomBytes_hex : nat -> string;
  (** [StringToNumber] of ECMA-262; [None] is [NaN] *)
  StringToNumber : string -> option number;
  (** [buf.toString('utf8')] of a [Buffer] holding these bytes: their UTF-8
      decoding, a malformed or cut-off sequence giving U+FFFD *)
  Buffer_toString : list Byte.byte -> string
}.

(** ** The response object *)

Definition lower_ascii (c : ascii) : ascii :=
  let n := nat_of_ascii c in
  if ((65 <=? n) && (n <=? 90))%nat then ascii_of_nat (n + 32) else c.

Fixpoint lower (s : string) : string :=
  match s with
  | EmptyString => EmptyString
  | String c r => String (lower_ascii c) (lower r)
  end.

(** A Node [ServerResponse] as the handlers use it: the status code, the
    headers set so far (names are case-insensitive, one value per name) and
    the value handed to [res.end] through [JSON.stringify], if any. *)
Record res_state := {
  statusCode : Z;
  headers : gmap string string;
  sent : option value
}.

Definition res_new : res_state :=
  {| statusCode := 200; headers := ∅; sent := None |}.

(** [res.setHeader(name, value)]: replaces the value the name had. *)
Definition setHeader (name v : string) (r : res_state) : res_state :=
  {| statusCode := statusCode r;
     headers := <[lower name := v]> (headers r);
     sent := sent r |}.

(** [res.getHeader(name)] *)
Definition getHeader (name : string) (r : res_state) : option string :=
  headers r !! lower name.

(** utils.js: [json(res, statusCode, data, extraHeaders)] *)
Definition json (r : res_state) (code : Z) (data : value)
    (extraHeaders : list (string * string)) : res_state :=
  let r1 := {| statusCode := code; headers := headers r; sent := sent r |} in
  let r2 := setHeader "Content-Type" "application/json; charset=utf-8" r1 in
  let r3 := setHeader "X-Content-Type-Options" "nosniff" r2 in
  let r4 := foldl (fun acc kv => setHeader kv.1 kv.2 acc) r3 extraHeaders in
  {| statusCode := statusCode r4; headers := headers r4; sent := Some data |}.

(** [{ ok: false, error }] and [{ ok: true, message }] *)
Definition err_body (error : string) : value :=
  VObj [("ok", VBool false); ("error", VStr error)].

Definition msg_body (message : string) : value :=
  VObj [("ok", VBool true); ("message", VStr message)].

Definition not_found_body : value := VObj [("error", VStr "Not Found")].

(** ** utils.js: setCookie *)

(** The options object; [maxAge] is an integer number of seconds, [expires]
    the [toUTCString()] of the date. A field is [None] when it is absent. *)
Record cookie_opts := {
  maxAge : option Z;
  path : option string;
  httpOnly : bool;
  secure : option bool;
  sameSite : option string;
  expires : option string
}.

Definition cookie_parts (P : Platform) (name v : string) (opts : cookie_opts)
  : list string :=
  [name +:+ "=" +:+ encodeURIComponent P v]
  ++ match maxAge opts with
     | Some n => ["Max-Age=" +:+ pretty n]
     | None => []
     end
  ++ [match nonempty_header (path opts) with
      | Some p => "Path=" +:+ p
      | None => "Path=/"
      end]
  ++ (if httpOnly opts then ["HttpOnly"] else [])
  ++ match secure opts with
     | Some false => []
     | _ => ["Secure"]
     end
  ++ [match nonempty_header (sameSite opts) with
      | Some s => "SameSite=" +:+ s
      | None => "SameSite=Strict"
      end]
  ++ match expires opts with
     | Some e => ["Expires=" +:+ e]
     | None => []
     end.

Definition setCookie (P : Platform) (r : res_state) (name v : string)
    (opts : cookie_opts) : res_state :=
  setHeader "Set-Cookie" (join "; " (cookie_parts P name v opts)) r.

(** ** utils.js: readJsonBody *)

(** The events of the request stream: the [data] chunks in order, each a
    [Buffer] (its bytes), then [end] or [error]. *)
Inductive stream_finish :=
| StreamEnd
| StreamError (message : string).

Record body_stream := {
  chunks : list (list Byte.byte);
  finish : stream_finish
}.

(** How the promise settles. *)
Inductive read_outcome :=
| Resolved (v : value)
| RejectedWith (message : string).

(** The [data] listener over the chunks, with its counters [size] (bytes:
    [d.length]) and [chunks] (text: every buffer is decoded on its own);
    [None] once [size] has passed the limit. *)
Fixpoint read_data (P : Platform) (limitBytes size : Z) (text : string)
    (ds : list (list Byte.byte)) : option string :=
  match ds with
  | [] => Some text
  | d :: rest =>
      let size' := size + Z.of_nat (length d) in
      if limitBytes <? size' then None
      else read_data P limitBytes size' (text +:+ Buffer_toString P d) rest
  end.

Definition readJsonBody (P : Platform) (s : body_stream) (limitBytes : Z)
  : read_outcome :=
  match read_data P limitBytes 0 "" (chunks s) with
  | None => RejectedWith "Payload too large"
  | Some text =>
      match finish s with
      | StreamError m => RejectedWith m
      | StreamEnd =>
          if negb (str_truthy text) then Resolved (VObj [])
          else match JSON_parse P text with
               | Some v => Resolved v
               | None => RejectedWith "Invalid JSON"
               end
      end
  end.

(** ** utils.js: allowCorsSameOrigin *)

(** [origin] is [req.headers.origin], [cors] is
    [process.env.CORS_ALLOW_ORIGINS]. *)
Definition allowCorsSameOrigin (E : Env) (cors origin : option string)
    (req : request) (r : res_state) : res_state :=
  match nonempty_header origin with
  | None => r
  | Some o =>
      let allowList :=
        List.filter str_truthy (map trim (split "," (default "" cors))) in
      let allow := setHeader "Vary" "Origin"
                     (setHeader "Access-Control-Allow-Origin" o r) in
      match allowList with
      | _ :: _ => if mem o allowList then allow else r
      | [] =>
          match URL_host E o with
          | None => r
          | Some ohost =>
              match nonempty_header (h_host req) with
              | Some host => if String.eqb ohost host then allow else r
              | None => r
              end
          end
      end
  end.

(** ** auth.js: issueAdminToken *)

(** [issueAdminToken(res, username, userId)] with the clock at [now_ms];
    [None] when it throws. *)
Definition issueAdminToken (P : Platform) (env : process_env)
    (username : string) (userId : Z) (now_ms : Z) : option (string * string) :=
  match getJwtSecret env with
  | None => None
  | Some secret =>
      let now := now_ms / 1000 in
      match SignJWT_sign P username userId now (now + 3600) secret with
      | None => None
      | Some token => Some (token, randomBytes_hex P 32)
      end
  end.

(** ** admin/login.js and admin/logout.js *)

Record login_env := {
  ADMIN_USER : option string;
  ADMIN_PASS_HASH : option string
}.

(** How a handler that writes on [res] ends: with the response as it stands
    at [res.end], or by throwing outside every [try]. *)
Inductive handled :=
| Done (r : res_state)
| Unhandled.

(** [String(x || '')]; [None] when the conversion throws *)
Definition string_or_empty (E : Env) (x : option value) : option string :=
  match x with
  | Some v => if truthy v then ToString E v else Some EmptyString
  | None => Some EmptyString
  end.

Definition session_cookie_opts (age : Z) : cookie_opts :=
  {| maxAge := Some age; path := Some "/"; httpOnly := true;
     secure := Some true; sameSite := Some "Strict"; expires := None |}.

Definition csrf_cookie_opts (age : Z) : cookie_opts :=
  {| maxAge := Some age; path := Some "/"; httpOnly := false;
     secure := Some true; sameSite := Some "Strict"; expires := None |}.

(** [module.exports] of login.js. Reading a property of a [null] body
    throws, and so does [String] of a username or password that has no
    string; neither is inside a [try]. *)
Definition login (E : Env) (P : Platform) (env : process_env) (lenv : login_env)
    (req : request) (s : body_stream) (now_ms : Z) : handled :=
  if negb (isIpAllowed env req) then Done (json res_new 404 not_found_body [])
  else if negb (String.eqb (method req) "POST") then
    Done (json res_new 405 (err_body "Method not allowed") [])
  else
    match readJsonBody P s 200000 with
    | RejectedWith m => Done (json res_new 400 (err_body m) [])
    | Resolved VNull => Unhandled
    | Resolved body =>
        match string_or_empty E (get_prop body "username"),
              string_or_empty E (get_prop body "password") with
        | Some u, Some password =>
            let username := trim u in
            if negb (str_truthy username) || negb (str_truthy password) then
              Done (json res_new 400 (err_body "Username and password are required") [])
            else
              let envUser := default "" (ADMIN_USER lenv) in
              let hash := default "" (ADMIN_PASS_HASH lenv) in
              if negb (str_truthy envUser) || negb (str_truthy hash) then
                Done (json res_new 500 (err_body "Admin credentials are not configured") [])
              else
                let userOk := String.eqb username envUser in
                let passOk := if userOk then bcrypt_compare P password hash else false in
                if negb passOk then
                  Done (json res_new 401 (err_body "Invalid username or password") [])
                else
                  match issueAdminToken P env username 1 now_ms with
                  | None => Done (json res_new 500 (err_body "Failed to login") [])
                  | Some (token, csrf) =>
                      let r1 := setCookie P res_new COOKIE_NAME token
                                  (session_cookie_opts 3600) in
                      let r2 := setCookie P r1 CSRF_COOKIE csrf (csrf_cookie_opts 3600) in
                      Done (json r2 200 (msg_body "Logged in") [])
                  end
        | _, _ => Unhandled
        end
    end.

Definition clear_opts (http_only : bool) : cookie_opts :=
  {| maxAge := Some 0; path := Some "/"; httpOnly := http_only;
     secure := None; sameSite := None; expires := None |}.

(** [module.exports] of logout.js *)
Definition logout (P : Platform) (env : process_env) (req : request) : res_state :=
  if negb (isIpAllowed env req) then json res_new 404 not_found_body []
  else
    let r1 := setCookie P res_new COOKIE_NAME "" (clear_opts true) in
    let r2 := setCookie P r1 CSRF_COOKIE "" (clear_opts false) in
    json r2 200 (msg_body "Logged out") [].

(** ** Numbers coerced from JSON values *)

(** A number or [NaN]. *)
Inductive xnum :=
| NaN
| Num (n : number).

(** [+x] for a property read off a JSON value (the argument [None]:
    [undefined]); an array or an object goes through its string, [valueOf]
    giving no primitive, and the result is [None] when that conversion
    throws. *)
Definition ToNumber (E : Env) (P : Platform) (x : option value) : option xnum :=
  match x with
  | None => Some NaN
  | Some VNull => Some (Num (Finite 0))
  | Some (VBool b) => Some (Num (Finite (if b then 1 else 0)))
  | Some (VNum n) => Some (Num n)
  | Some (VStr s) =>
      Some (match StringToNumber P s with Some n => Num n | None => NaN end)
  | Some v =>
      match ToString E v with
      | Some s => Some (match StringToNumber P s with Some n => Num n | None => NaN end)
      | None => None
      end
  end.

Definition Math_floor (x : xnum) : xnum :=
  match x with
  | Num (Finite q) => Num (Finite (inject_Z (Qfloor q)))
  | other => other
  end.

(** [a <= b] on numbers *)
Definition num_leb (a b : number) : bool :=
  match a, b with
  | NegInf, _ => true
  | _, PosInf => true
  | Finite p, Finite q => Qle_bool p q
  | _, _ => false
  end.

Definition Math_min (a b : xnum) : xnum :=
  match a, b with
  | Num m, Num n => if num_leb m n then Num m else Num n
  | _, _ => NaN
  end.

Definition Math_max (a b : xnum) : xnum :=
  match a, b with
  | Num m, Num n => if num_leb m n then Num n else Num m
  | _, _ => NaN
  end.

Definition Number_isFinite (x : xnum) : bool :=
  match x with Num (Finite _) => true | _ => false end.

(** ** admin/reviews.js: the POST case *)

(** A parameter bound to a [?] of the statement. *)
Inductive sqlparam :=
| PStr (s : string)
| PNum (x : xnum)
| PNull.

(** What the POST case does with the body before it runs the statement: an
    error response, or the parameters of the INSERT. *)
Inductive prepared :=
| Refused (code : Z) (error : string)
| Statement (params : list sqlparam).

Definition truthy_prop (x : option value) : bool :=
  match x with Some v => truthy v | None => false end.

(** [Math.max(1, Math.min(5, Math.floor(+rating)))] *)
Definition rating_of (E : Env) (P : Platform) (x : option value) : option xnum :=
  match ToNumber E P x with
  | Some n => Some (Math_max (Num (Finite 1)) (Math_min (Num (Finite 5)) (Math_floor n)))
  | None => None
  end.

(** [Number.isFinite(+x) ? Math.floor(+x) : 0] *)
Definition sort_order_of (E : Env) (P : Platform) (x : option value) : option xnum :=
  match ToNumber E P x with
  | Some n => Some (if Number_isFinite n then Math_floor n else Num (Finite 0))
  | None => None
  end.

(** [x ? String(x).trim() : null] *)
Definition trimmed_or_null (E : Env) (x : option value) : option sqlparam :=
  if truthy_prop x then
    match ToString E (or_null x) with
    | Some s => Some (PStr (trim s))
    | None => None
    end
  else Some PNull.

(** The body is what [readJsonBody] resolved to. A [null] body makes the
    first property read throw, and a value that has no number or no string
    makes its conversion throw; both happen inside the [try], which answers
    500. *)
Definition review_post_params (E : Env) (P : Platform) (body : value) : prepared :=
  match body with
  | VNull => Refused 500 "An error occurred"
  | _ =>
      let author := get_prop body "author" in
      let rating := get_prop body "rating" in
      let text := get_prop body "text" in
      let image_url := get_prop body "image_url" in
      if negb (truthy_prop author) || negb (not_nullish rating)
         || negb (truthy_prop text)
      then Refused 400 "Author, rating, and text are required"
      else
        match rating_of E P rating, sort_order_of E P (get_prop body "sort_order"),
              ToString E (or_null author), ToString E (or_null text),
              trimmed_or_null E image_url with
        | Some r, Some sortOrder, Some a, Some t, Some img =>
            Statement
              [PStr (trim a); PNum r; PStr (trim t); img;
               PNum (Num (Finite (match get_prop body "is_active" with
                                  | Some (VBool false) => 0
                                  | _ => 1
                                  end)));
               PNum sortOrder]
        | _, _, _, _, _ => Refused 500 "An error occurred"
        end
  end.

(** ** Further vocabulary *)

(** A string without the given character. *)
Fixpoint lacks (c : ascii) (s : string) : bool :=
  match s with
  | EmptyString => true
  | String a r => negb (Ascii.eqb a c) && lacks c r
  end.

(** A string that [trim] leaves alone as a whole: no white space in it. *)
Fixpoint spaceless (s : string) : bool :=
  match s with
  | EmptyString => true
  | String a r => negb (is_js_space a) && spaceless r
  end.

(** The verdicts of successive [rateLimit(ip, 30, 60)] calls at the given
    times, and the state they leave. *)
Fixpoint run_calls (ip : string) (times : list Z) (rs : gmap string (list Z))
  : list bool * gmap string (list Z) :=
  match times with
  | [] => ([], rs)
  | now :: rest =>
      let '(ok, rs1) := rateLimit_30_60 ip now rs in
      let '(oks, rs2) := run_calls ip rest rs1 in
      (ok :: oks, rs2)
  end.

(** The text of a cookie part after its first [=], empty when it has none. *)
Fixpoint after_eq (s : string) : string :=
  match s with
  | EmptyString => EmptyString
  | String c r => if Ascii.eqb c "=" then r else after_eq r
  end.

(** The text of a cookie part before its first [=]. *)
Fixpoint before_eq (s : string) : string :=
  match s with
  | EmptyString => EmptyString
  | String c r => if Ascii.eqb c "=" then EmptyString else String c (before_eq r)
  end.

(** A URL that [fetch] may be handed: its host is one of the three. *)
Definition allowed_call (E : Env) (u : string) : Prop :=
  exists h, URL_host E u = Some h /\
            In h ["apis.roblox.com"; "games.roblox.com"; "thumbnails.roblox.com"].

(** A computation that, from any trace, adds at most [n] calls to it, all of
    them allowed, whether it returns or throws. *)
Definition extends {A : Type} (E : Env) (n : nat) (m : M A) : Prop :=
  forall tr, exists extra,
    (m tr).2 = tr ++ extra /\ (length extra <= n)%nat /\
    Forall (allowed_call E) extra.

(** A text made of commas and white space only. *)
Fixpoint blank_list (s : string) : bool :=
  match s with
  | EmptyString => true
  | String c r => (is_js_space c || Ascii.eqb c ",") && blank_list r
  end.

Fixpoint all_space (s : string) : bool :=
  match s with
  | EmptyString => true
  | String c r => is_js_space c && all_space r
  end.

(** The number of bytes of a body, and the text its chunks decode to, one
    by one. *)
Definition total_length (ds : list (list Byte.byte)) : Z :=
  foldr (fun d acc => Z.of_nat (length d) + acc) 0 ds.

Definition decoded_text (P : Platform) (ds : list (list Byte.byte)) : string :=
  foldr (fun d acc => Buffer_toString P d +:+ acc) EmptyString ds.

Definition is_ascii_byte (b : Byte.byte) : bool := (Byte.to_nat b <? 128)%nat.

(** A decoder that gives ASCII bytes their characters. *)
Definition decodes_ascii (P : Platform) : Prop :=
  forall d, forallb is_ascii_byte d = true ->
            Buffer_toString P d = String.string_of_list_byte d.

Module More.

(** The decoder of this platform takes every byte for the character of that
    code, which is what UTF-8 decoding does on ASCII bytes; the bodies used
    with it are ASCII. *)
Definition P : Platform :=
  {| encodeURIComponent := fun s => s;
     JSON_parse := fun s =>
       if String.eqb s "{}" then Some (VObj [])
       else Some (VObj [("username", VStr "admin"); ("password", VStr "hunter2")]);
     bcrypt_compare := fun pw h => String.eqb pw "hunter2" && String.eqb h "$2a$hash";
     SignJWT_sign := fun u _ _ _ _ => Some ("jwt." +:+ u);
     randomBytes_hex := fun _ => "c0ffee";
     StringToNumber := fun s => if String.eqb s "4" then Some (Finite 4) else None;
     Buffer_toString := String.string_of_list_byte |}.

(** [Sample.E] with a decoder that rejects a lone [%]. *)
Definition E_pct : Env :=
  {| URL_host := URL_host Sample.E;
     URL_searchParam_ids := URL_searchParam_ids Sample.E;
     number_repr := number_repr Sample.E;
     fetch := fetch Sample.E;
     decodeURIComponent := fun s => if String.eqb s "%" then None else Some s;
     jwtVerify := jwtVerify Sample.E |}.

Definition bad_cookie_req : request :=
  {| method := "GET"; url := "/api/admin/pricing"; h_host := Some "example.org";
     h_x_forwarded_for := Some "154.238.160.118"; h_x_real_ip := None;
     h_cookie := Some "yd_admin=signed; theme=%";
     h_x_csrf_token := None; remoteAddress := Some "10.0.0.1" |}.

Definition lenv : login_env :=
  {| ADMIN_USER := Some "admin"; ADMIN_PASS_HASH := Some "$2a$hash" |}.

Definition post_login (ip : string) : request :=
  {| method := "POST"; url := "/api/admin/login"; h_host := Some "example.org";
     h_x_forwarded_for := Some ip; h_x_real_ip := None; h_cookie := None;
     h_x_csrf_token := None; remoteAddress := Some "10.0.0.1" |}.

(** Two games with the same id in one metadata body. *)
Definition two_entries : value :=
  VObj [("data", VArr [Sample.game "7" "old" (VNum (Finite 1));
                       Sample.game "7" "new" (VNum (Finite 2))])].

(** A metadata body whose first element has an identifier without a string. *)
Definition unreadable_id : value :=
  VObj [("data", VArr [VObj [("id", VObj [("toString", VNum (Finite 1))])];
                       Sample.game "7" "new" (VNum (Finite 2))])].

Definition credentials : body_stream :=
  {| chunks := [String.list_byte_of_string "{'username':";
                String.list_byte_of_string "'admin','password':'hunter2'}"];
     finish := StreamEnd |}.

End More.

(** * Properties *)

(** Steps into the handler past its two method tests, for a GET request. *)
Ltac enter_get Hget :=
  unfold gamesData; rewrite Hget; cbn [String.eqb Ascii.eqb Bool.eqb negb].

(** ** Strings and validatePlaceIds *)

Lemma validatePlaceIds_loop_spec raw out :
  (length out < 20)%nat ->
  validatePlaceIds_loop raw out
  = take 20 (out ++ List.filter re_digits_1_20 (map trim raw)).
Proof.
  revert out. induction raw as [|r rest IH]; intros out Hlen;
    cbn [validatePlaceIds_loop map List.filter].
  - rewrite app_nil_r. symmetry. apply firstn_all2. lia.
  - destruct (re_digits_1_20 (trim r)) eqn:Hv.
    + destruct (20 <=? length (out ++ [trim r]))%nat eqn:Hfull.
      * apply Nat.leb_le in Hfull. rewrite length_app in Hfull. simpl in Hfull.
        replace (out ++ trim r :: List.filter re_digits_1_20 (map trim rest))
          with ((out ++ [trim r]) ++ List.filter re_digits_1_20 (map trim rest))
          by (rewrite <- app_assoc; reflexivity).
        rewrite firstn_app.
        replace (20 - length (out ++ [trim r]))%nat with 0%nat
          by (rewrite length_app; simpl; lia).
        simpl. rewrite app_nil_r. symmetry. apply firstn_all2.
        rewrite length_app. simpl. lia.
      * apply Nat.leb_gt in Hfull. rewrite IH by exact Hfull.
        rewrite <- app_assoc. reflexivity.
    + destruct (20 <=? length out)%nat eqn:Hfull.
      * apply Nat.leb_le in Hfull. lia.
      * apply IH. exact Hlen.
Qed.

Lemma validatePlaceIds_retained idsStr :
  validatePlaceIds idsStr = retained_spec idsStr.
Proof.
  unfold validatePlaceIds, retained_spec.
  destruct idsStr as [|c r]; [reflexivity|].
  cbn [str_truthy negb]. rewrite validatePlaceIds_loop_spec by (simpl; lia).
  reflexivity.
Qed.

Lemma retained_at_most_20 idsStr : (length (validatePlaceIds idsStr) <= 20)%nat.
Proof.
  rewrite validatePlaceIds_retained. unfold retained_spec.
  rewrite length_take. lia.
Qed.

Lemma first_piece_split s : first_piece (split "," s) = before_comma s.
Proof.
  induction s as [|c r IH]; [reflexivity|].
  cbn [split before_comma]. destruct (Ascii.eqb c ","); [reflexivity|].
  destruct (split "," r) as [|p ps]; simpl in *; rewrite <- IH; reflexivity.
Qed.

Lemma nonempty_header_Some h s :
  h = Some s -> s <> EmptyString -> nonempty_header h = Some s.
Proof. intros -> Hs. destruct s; [congruence | reflexivity]. Qed.

Lemma nonempty_header_None h :
  h = None \/ h = Some EmptyString -> nonempty_header h = None.
Proof. intros [-> | ->]; reflexivity. Qed.

(** ** The rate limiter *)

Lemma fresh_of_length now w bucket :
  (length (fresh_of now w bucket) <= length bucket)%nat.
Proof.
  unfold fresh_of. induction bucket as [|t l IH]; simpl; [lia|].
  destruct (now - t <? w * 1000); simpl; lia.
Qed.

Lemma fresh_of_In now w bucket t :
  In t (fresh_of now w bucket) -> In t bucket.
Proof. unfold fresh_of. rewrite filter_In. tauto. Qed.

Lemma recent_le_fresh now bucket :
  (length (recent now bucket) <= length (fresh_of now 60 bucket))%nat.
Proof.
  unfold recent, fresh_of. induction bucket as [|t l IH]; simpl; [lia|].
  destruct ((now - 60000 <? t) && (t <=? now)) eqn:Hr.
  - apply andb_true_iff in Hr as [H1 H2]. apply Z.ltb_lt in H1.
    replace (now - t <? 60 * 1000) with true by (symmetry; apply Z.ltb_lt; lia).
    simpl. lia.
  - destruct (now - t <? 60 * 1000); simpl; lia.
Qed.

Lemma fresh_of_expired T bucket :
  (forall t, In t bucket -> 60000 <= T - t) -> fresh_of T 60 bucket = [].
Proof.
  unfold fresh_of. induction bucket as [|t l IH]; intros H; simpl; [reflexivity|].
  replace (T - t <? 60 * 1000) with false
    by (symmetry; apply Z.ltb_ge; specialize (H t (or_introl eq_refl)); lia).
  apply IH. intros t' Ht'. apply H. right. exact Ht'.
Qed.

Lemma rateLimit_denied ip now rs :
  (30 <= length (fresh_of now 60 (default [] (rs !! ip))))%nat ->
  rateLimit ip 30 60 now rs
  = (false, <[ip := fresh_of now 60 (default [] (rs !! ip))]> rs).
Proof.
  intros H. unfold rateLimit.
  replace (30 <=? Z.of_nat (length (fresh_of now 60 (default [] (rs !! ip)))))
    with true by (symmetry; apply Z.leb_le; lia).
  reflexivity.
Qed.

Lemma rateLimit_granted ip now rs :
  (length (fresh_of now 60 (default [] (rs !! ip))) < 30)%nat ->
  rateLimit ip 30 60 now rs
  = (true, <[ip := fresh_of now 60 (default [] (rs !! ip)) ++ [now]]> rs).
Proof.
  intros H. unfold rateLimit.
  replace (30 <=? Z.of_nat (length (fresh_of now 60 (default [] (rs !! ip)))))
    with false by (symmetry; apply Z.leb_gt; lia).
  reflexivity.
Qed.

Lemma rateLimit_cases ip now rs :
  let fresh := fresh_of now 60 (default [] (rs !! ip)) in
  ((30 <= length fresh)%nat /\ rateLimit_30_60 ip now rs = (false, <[ip := fresh]> rs))
  \/ ((length fresh < 30)%nat /\
      rateLimit_30_60 ip now rs = (true, <[ip := fresh ++ [now]]> rs)).
Proof.
  intros fresh. unfold rateLimit_30_60.
  destruct (le_lt_dec 30 (length fresh)) as [H|H].
  - left. split; [exact H|]. apply rateLimit_denied. exact H.
  - right. split; [exact H|]. apply rateLimit_granted. exact H.
Qed.

Lemma default_bucket_bounded rs ip :
  bounded rs -> (length (default [] (rs !! ip)) <= 30)%nat.
Proof.
  intros Hb. destruct (rs !! ip) as [b|] eqn:Hk; simpl; [|lia].
  exact (Hb ip b Hk).
Qed.

Lemma rateLimit_bounded ip now rs :
  bounded rs -> bounded (rateLimit_30_60 ip now rs).2.
Proof.
  intros Hb k b.
  destruct (rateLimit_cases ip now rs) as [[Hlen ->] | [Hlen ->]]; simpl;
    rewrite lookup_insert; case_decide; intros Hk.
  - injection Hk as <-. pose proof (fresh_of_length now 60 (default [] (rs !! ip))).
    pose proof (default_bucket_bounded rs ip Hb). lia.
  - exact (Hb k b Hk).
  - injection Hk as <-. rewrite length_app. simpl. lia.
  - exact (Hb k b Hk).
Qed.

Lemma reachable_bounded rs : reachable rs -> bounded rs.
Proof.
  induction 1 as [|rs ip now _ IH].
  - intros k b Hk. rewrite lookup_empty in Hk. discriminate.
  - apply rateLimit_bounded. exact IH.
Qed.

Lemma reachable_foldl ip nows rs :
  reachable rs ->
  reachable (foldl (fun rs now => (rateLimit_30_60 ip now rs).2) rs nows).
Proof.
  revert rs. induction nows as [|now rest IH]; intros rs H; simpl; [exact H|].
  apply IH. constructor. exact H.
Qed.

Lemma denied_run_bucket ip nows rs rs2 t :
  denied_run ip nows rs = Some rs2 ->
  In t (default [] (rs2 !! ip)) -> In t (default [] (rs !! ip)).
Proof.
  revert rs. induction nows as [|now rest IH]; intros rs Hrun Hin; simpl in Hrun.
  - injection Hrun as <-. exact Hin.
  - destruct (rateLimit_cases ip now rs) as [[Hlen Heq] | [Hlen Heq]];
      rewrite Heq in Hrun; [|discriminate].
    specialize (IH _ Hrun Hin). rewrite lookup_insert_eq in IH. simpl in IH.
    eapply fresh_of_In. exact IH.
Qed.

(** ** Objects used as maps *)

Lemma mem_In x xs : mem x xs = true <-> In x xs.
Proof.
  unfold mem. rewrite existsb_exists. split.
  - intros [y [Hy Heq]]. apply String.eqb_eq in Heq. subst. exact Hy.
  - intros H. exists x. split; [exact H | apply String.eqb_refl].
Qed.

Lemma mem_not_In x xs : mem x xs = false <-> ~ In x xs.
Proof.
  rewrite <- mem_In. destruct (mem x xs); split; intros; congruence.
Qed.



Lemma obj_set_keys {V} k (v : V) o x :
  In x (map fst (obj_set k v o)) <-> x = k \/ In x (map fst o).
Proof.
  induction o as [|[k' v'] rest IH]; simpl.
  - intuition congruence.
  - destruct (String.eqb k k') eqn:Hk; simpl.
    + apply String.eqb_eq in Hk. subst k'. intuition congruence.
    + rewrite IH. intuition congruence.
Qed.

Lemma obj_set_NoDup {V} k (v : V) o :
  List.NoDup (map fst o) -> List.NoDup (map fst (obj_set k v o)).
Proof.
  induction o as [|[k' v'] rest IH]; simpl; intros Hnd.
  - constructor; [simpl; tauto | constructor].
  - inversion Hnd as [|? ? Hnotin Hnd']; subst.
    destruct (String.eqb k k') eqn:Hk; simpl.
    + apply String.eqb_eq in Hk. subst k'. constructor; assumption.
    + apply String.eqb_neq in Hk. constructor.
      * rewrite obj_set_keys. intros [->|H]; [congruence | contradiction].
      * apply IH. exact Hnd'.
Qed.

Lemma assoc_In {V} k (v : V) o :
  List.NoDup (map fst o) -> (assoc k o = Some v <-> In (k, v) o).
Proof.
  induction o as [|[k' v'] rest IH]; simpl; intros Hnd.
  - split; [discriminate | tauto].
  - inversion Hnd as [|? ? Hnotin Hnd']; subst.
    destruct (String.eqb k k') eqn:Hk.
    + apply String.eqb_eq in Hk. subst k'. split.
      * intros [= ->]. left. reflexivity.
      * intros [[= ->] | Hin]; [reflexivity|].
        exfalso. apply Hnotin. apply (in_map fst) in Hin. exact Hin.
    + apply String.eqb_neq in Hk. rewrite (IH Hnd'). split.
      * intros H. right. exact H.
      * intros [[= -> ->] | Hin]; [congruence | exact Hin].
Qed.


Lemma insert_by_index_In {V} (e x : Z * V) l :
  In x (insert_by_index e l) <-> x = e \/ In x l.
Proof.
  induction l as [|e' rest IH]; simpl.
  - intuition congruence.
  - destruct (e.1 <=? e'.1); simpl; [|rewrite IH]; intuition congruence.
Qed.

Lemma index_props_In {V} (o : list (string * V)) n v :
  In (n, v) (index_props o) <-> exists k, In (k, v) o /\ array_index k = Some n.
Proof.
  induction o as [|[k' v'] rest IH]; simpl.
  - split; [tauto | intros [k [[] _]]].
  - destruct (array_index k') as [n'|] eqn:Hk'.
    + rewrite insert_by_index_In, IH. split.
      * intros [[= -> ->] | [k [Hin Hk]]].
        -- exists k'. split; [left; reflexivity | exact Hk'].
        -- exists k. split; [right; exact Hin | exact Hk].
      * intros [k [[[= -> ->] | Hin] Hk]].
        -- left. congruence.
        -- right. exists k. split; assumption.
    + rewrite IH. split.
      * intros [k [Hin Hk]]. exists k. split; [right; exact Hin | exact Hk].
      * intros [k [[[= -> ->] | Hin] Hk]]; [congruence|].
        exists k. split; assumption.
Qed.

Lemma named_props_In {V} (o : list (string * V)) v :
  In v (named_props o) <-> exists k, In (k, v) o /\ array_index k = None.
Proof.
  induction o as [|[k' v'] rest IH]; simpl.
  - split; [tauto | intros [k [[] _]]].
  - destruct (array_index k') as [n'|] eqn:Hk'; simpl; rewrite IH; split.
    + intros [k [Hin Hk]]. exists k. split; [right; exact Hin | exact Hk].
    + intros [k [[[= -> ->] | Hin] Hk]]; [congruence|].
      exists k. split; assumption.
    + intros [-> | [k [Hin Hk]]].
      * exists k'. split; [left; reflexivity | exact Hk'].
      * exists k. split; [right; exact Hin | exact Hk].
    + intros [k [[[= -> ->] | Hin] Hk]]; [left; reflexivity|].
      right. exists k. split; assumption.
Qed.

(** [Object.values] enumerates exactly the values of the own properties. *)
Lemma Object_values_In {V} (o : list (string * V)) v :
  In v (Object_values o) <-> exists k, In (k, v) o.
Proof.
  unfold Object_values. rewrite in_app_iff, in_map_iff, named_props_In. split.
  - intros [[[n v'] [Hv Hin]] | [k [Hin _]]].
    + simpl in Hv. subst v'. apply index_props_In in Hin as [k [Hin _]].
      exists k. exact Hin.
    + exists k. exact Hin.
  - intros [k Hin]. destruct (array_index k) as [n|] eqn:Hk.
    + left. exists (n, v). split; [reflexivity|].
      apply index_props_In. exists k. split; assumption.
    + right. exists k. split; assumption.
Qed.

Lemma set_spread_In seen xs x :
  In x (set_spread seen xs) <-> In x xs /\ ~ In x seen.
Proof.
  revert seen. induction xs as [|y rest IH]; intros seen; simpl.
  - tauto.
  - destruct (mem y seen) eqn:Hm.
    + apply mem_In in Hm. rewrite IH. split.
      * intros [H1 H2]. split; [right; exact H1 | exact H2].
      * intros [[-> | H1] H2]; [contradiction | split; assumption].
    + apply mem_not_In in Hm. simpl. rewrite IH. simpl. split.
      * intros [-> | [H1 H2]]; [split; [left; reflexivity | exact Hm]|].
        split; [right; exact H1 | tauto].
      * intros [[-> | H1] H2]; [left; reflexivity|].
        destruct (String.string_dec y x) as [->|Hne]; [left; reflexivity|].
        right. split; [exact H1 | intros [Heq | Hs]; [congruence | contradiction]].
Qed.

Lemma set_spread_NoDup seen xs : List.NoDup (set_spread seen xs).
Proof.
  revert seen. induction xs as [|y rest IH]; intros seen; simpl.
  - constructor.
  - destruct (mem y seen); [apply IH|].
    constructor; [|apply IH].
    rewrite set_spread_In. simpl. tauto.
Qed.


(** ** Numbers *)

Lemma NumberToString_safe E z :
  Z.abs z < 2 ^ 53 -> NumberToString E (Finite (inject_Z z)) = pretty z.
Proof.
  intros Hz. unfold NumberToString, Q_is_integer. rewrite Qfloor_Z.
  cbn [inject_Z Qnum Qden]. rewrite Z.mod_1_r.
  replace (Z.abs z <? 2 ^ 53) with true by (symmetry; apply Z.ltb_lt; exact Hz).
  reflexivity.
Qed.

Lemma round_to_double_exact z : Z.abs z < 2 ^ 53 -> round_to_double z = DInt z.
Proof.
  intros Hz. unfold round_to_double.
  assert (Hlog : Z.log2 (Z.abs z) - 52 <= 0).
  { destruct (Z.eq_dec (Z.abs z) 0) as [->|Hne]; [simpl; lia|].
    assert (Z.log2 (Z.abs z) < 53); [|lia].
    apply Z.log2_lt_pow2; lia. }
  apply Z.leb_le in Hlog. cbv zeta. rewrite Hlog. reflexivity.
Qed.

Lemma floor_sum_cons r data :
  floor_sum (r :: data) = default 0 (counted (visits r)) + floor_sum data.
Proof. reflexivity. Qed.

Lemma accumulate_exact data z :
  (forall k, Z.abs (z + floor_sum (take k data)) < 2 ^ 53) ->
  accumulate data (DInt z) = DInt (z + floor_sum data).
Proof.
  revert z. induction data as [|r rest IH]; intros z Hsafe.
  - simpl. f_equal. lia.
  - cbn [accumulate]. rewrite floor_sum_cons.
    set (d := default 0 (counted (visits r))).
    assert (Hstep : match counted (visits r) with
                    | Some x => dbl_add (DInt z) x
                    | None => DInt z
                    end = DInt (z + d)).
    { pose proof (Hsafe 1%nat) as H1.
      change (take 1 (r :: rest)) with [r] in H1.
      rewrite floor_sum_cons in H1. fold d in H1.
      change (floor_sum []) with 0 in H1. rewrite Z.add_0_r in H1.
      subst d. destruct (counted (visits r)) as [x|].
      - apply round_to_double_exact. exact H1.
      - f_equal. change (default 0 None) with 0. lia. }
    rewrite Hstep. rewrite IH.
    + f_equal. lia.
    + intros k. pose proof (Hsafe (S k)) as Hk.
      change (take (S k) (r :: rest)) with (r :: take k rest) in Hk.
      rewrite floor_sum_cons in Hk. fold d in Hk.
      rewrite <- Z.add_assoc. exact Hk.
Qed.

(** ** fetchJson and placeToUniverseId *)

Lemma fetchJson_allowed E u h tr :
  URL_host E u = Some h -> mem h ALLOWED_HOSTS = true ->
  fetchJson E u tr = (Ok (json_of_outcome (fetch E (length tr) u)), tr ++ [u]).
Proof. intros Hh Hm. unfold fetchJson. rewrite Hh, Hm. reflexivity. Qed.

Lemma fetchJson_refused E u h tr :
  URL_host E u = Some h -> mem h ALLOWED_HOSTS = false ->
  fetchJson E u tr = (Ok VNull, tr).
Proof. intros Hh Hm. unfold fetchJson. rewrite Hh, Hm. reflexivity. Qed.

Lemma res_ok_false status : ~ (200 <= status <= 299) -> res_ok status = false.
Proof.
  intros H. unfold res_ok. apply andb_false_iff.
  destruct (Z_le_dec 200 status); [right | left]; apply Z.leb_gt; lia.
Qed.

Lemma json_of_failure o : failure o -> json_of_outcome o = VNull.
Proof.
  intros [-> | [-> | [-> | [(st & body & -> & Hst) | (st & ->)]]]];
    try reflexivity; simpl.
  - rewrite res_ok_false by exact Hst. reflexivity.
  - destruct (res_ok st); reflexivity.
Qed.

Lemma upstream_universeId_failure o : failure o -> upstream_universeId o = None.
Proof.
  intros [-> | [-> | [-> | [(st & body & -> & Hst) | (st & ->)]]]];
    try reflexivity; simpl.
  rewrite res_ok_false by exact Hst. destruct body as [[]|]; reflexivity.
Qed.

Lemma universe_of_spec E pid o :
  universe_of E pid (json_of_outcome o)
  = match upstream_universeId o with
    | Some u => ToString E u
    | None => Some pid
    end.
Proof.
  destruct o as [| | |st [v|]]; try reflexivity; simpl;
    [|destruct (res_ok st); reflexivity].
  destruct v as [|b|n|s|items|props];
    destruct (res_ok st); try reflexivity.
  - destruct b; reflexivity.
  - unfold universe_of. destruct (truthy (VNum n)); reflexivity.
  - unfold universe_of. destruct (truthy (VStr s)); reflexivity.
  - unfold universe_of. cbn [truthy get_prop andb].
    destruct (assoc "universeId" props) as [[|b|n|s|items|props']|];
      try reflexivity.
    cbn [is_number is_digit_string or_null default].
    destruct (re_digits_plus s); reflexivity.
Qed.

(** [String] is applied to numbers and strings only there: no exception. *)
Lemma universe_of_total E pid data : exists uid, universe_of E pid data = Some uid.
Proof.
  unfold universe_of.
  destruct (truthy data); cbn [andb]; [|eauto].
  destruct (get_prop data "universeId") as [[|b|n|s|items|props]|];
    cbn [is_number is_digit_string or_null default id]; eauto.
  destruct (re_digits_plus s); cbn [ToString]; eauto.
Qed.

Section Hosts.

(** An environment whose [URL] reads the upstream hosts off the URLs built on
    them, as WHATWG URL parsing does. *)
Context (E : Env) (Hhosts : parses_hosts E).

Lemma host_universe pid : URL_host E (universe_url pid) = Some "apis.roblox.com".
Proof.
  exact (proj1 (Hhosts ("universes/v1/places/" +:+ pid +:+ "/universe"))).
Qed.

Lemma host_games us : URL_host E (games_url us) = Some "games.roblox.com".
Proof.
  exact (proj1 (proj2 (Hhosts ("v1/games?universeIds=" +:+ join "," us)))).
Qed.

Lemma host_icons us : URL_host E (icons_url us) = Some "thumbnails.roblox.com".
Proof.
  exact (proj2 (proj2 (Hhosts ("v1/games/icons?universeIds=" +:+ join "," us
                               +:+ "&size=420x420&format=Png&isCircular=false")))).
Qed.

Lemma placeToUniverseId_run pid tr :
  exists uid,
    universe_of E pid (json_of_outcome (fetch E (length tr) (universe_url pid)))
    = Some uid /\
    placeToUniverseId E pid tr = (Ok uid, tr ++ [universe_url pid]).
Proof.
  destruct (universe_of_total E pid
              (json_of_outcome (fetch E (length tr) (universe_url pid))))
    as [uid Huid].
  exists uid. split; [exact Huid|].
  unfold placeToUniverseId, bind.
  rewrite (fetchJson_allowed E _ _ tr (host_universe pid) eq_refl).
  unfold lift. rewrite Huid. reflexivity.
Qed.

(** The resolution loop makes one lookup per identifier and never throws. *)
Lemma resolve_all_calls pids um0 tr :
  exists um, resolve_all E pids um0 tr = (Ok um, tr ++ map universe_url pids).
Proof.
  revert um0 tr. induction pids as [|pid rest IH]; intros um0 tr.
  - exists um0. simpl. rewrite app_nil_r. reflexivity.
  - cbn [resolve_all]. unfold bind at 1.
    destruct (placeToUniverseId_run pid tr) as (uid & _ & ->).
    destruct (IH (obj_set pid uid um0) (tr ++ [universe_url pid])) as [um Hum].
    exists um. rewrite Hum. rewrite <- app_assoc. reflexivity.
Qed.

(** The calls of the [try] block, whether it returns or throws: the lookups,
    then the two batch calls on the canonical identifiers without
    repetition. *)
Lemma aggregate_calls pids tr :
  exists um,
    resolve_all E pids [] tr = (Ok um, tr ++ map universe_url pids) /\
    (aggregate E pids tr).2
    = tr ++ map universe_url pids
      ++ [games_url (set_spread [] (Object_values um));
          icons_url (set_spread [] (Object_values um))].
Proof.
  destruct (resolve_all_calls pids [] tr) as [um Hum].
  exists um. split; [exact Hum|].
  unfold aggregate, bind. rewrite Hum.
  rewrite (fetchJson_allowed E _ _ _ (host_games _) eq_refl).
  rewrite (fetchJson_allowed E _ _ _ (host_icons _) eq_refl).
  unfold lift.
  destruct (gameInfo_of E _) as [gi|]; [|cbn [snd]; rewrite <- !app_assoc; reflexivity].
  destruct (gameIcons_of E _) as [gic|]; [|cbn [snd]; rewrite <- !app_assoc; reflexivity].
  destruct (join_loop _ _ _ _ _ _). cbn [ret snd]. rewrite <- !app_assoc. reflexivity.
Qed.

End Hosts.

(** ** The aggregation and the handler *)

Lemma resolve_all_keys E pids um0 tr um tr' :
  resolve_all E pids um0 tr = (Ok um, tr') ->
  List.NoDup (map fst um0) ->
  List.NoDup (map fst um) /\
  (forall x, In x (map fst um) <-> In x pids \/ In x (map fst um0)).
Proof.
  revert um0 tr. induction pids as [|pid rest IH]; intros um0 tr Hrun Hnd.
  - injection Hrun as <- <-. split; [exact Hnd | simpl; tauto].
  - cbn [resolve_all] in Hrun. unfold bind in Hrun at 1.
    destruct (placeToUniverseId E pid tr) as [[uid|] tr1]; [|discriminate].
    destruct (IH _ _ Hrun (obj_set_NoDup pid uid um0 Hnd)) as [Hnd' Hkeys].
    split; [exact Hnd'|]. intros x. rewrite Hkeys, obj_set_keys. simpl.
    intuition congruence.
Qed.

Lemma filter_universe_calls (f : string -> bool) pids :
  (forall pid, f (universe_url pid) = false) ->
  List.filter f (map universe_url pids) = [].
Proof.
  intros H. induction pids as [|pid rest IH]; simpl; [reflexivity|].
  rewrite H. exact IH.
Qed.


Lemma join_loop_spec um gi gic pids out total :
  join_loop um gi gic pids out total
  = (out ++ map (join_record um gi gic) pids,
     accumulate (map (join_record um gi gic) pids) total).
Proof.
  revert out total. induction pids as [|pid rest IH]; intros out total.
  - simpl. rewrite app_nil_r. reflexivity.
  - cbn [join_loop map accumulate]. rewrite IH. rewrite <- app_assoc. reflexivity.
Qed.

Lemma aggregate_inv E pids tr r tr' :
  aggregate E pids tr = (Ok r, tr') ->
  exists um tr1 infoData tr2 iconData gi gic,
    let uniq := set_spread [] (Object_values um) in
    let data := map (join_record um gi gic) pids in
    resolve_all E pids [] tr = (Ok um, tr1) /\
    fetchJson E (games_url uniq) tr1 = (Ok infoData, tr2) /\
    fetchJson E (icons_url uniq) tr2 = (Ok iconData, tr') /\
    gameInfo_of E infoData = Some gi /\
    gameIcons_of E iconData = Some gic /\
    r = {| status := 200;
           payload := BData data (NumberToString E (dbl_number (accumulate data (DInt 0))))
                        (length data);
           cache_control := Some "public, max-age=60, s-maxage=60" |}.
Proof.
  unfold aggregate, bind, lift. intros Hrun.
  destruct (resolve_all E pids [] tr) as [[um|] tr1] eqn:H1; [|discriminate].
  destruct (fetchJson E (games_url (set_spread [] (Object_values um))) tr1)
    as [[infoData|] tr2] eqn:H2; [|discriminate].
  destruct (fetchJson E (icons_url (set_spread [] (Object_values um))) tr2)
    as [[iconData|] tr3] eqn:H3; [|discriminate].
  destruct (gameInfo_of E infoData) as [gi|] eqn:H4; [|discriminate].
  destruct (gameIcons_of E iconData) as [gic|] eqn:H5; [|discriminate].
  rewrite join_loop_spec in Hrun. cbn [app] in Hrun. unfold ret in Hrun.
  injection Hrun as <- <-.
  exists um, tr1, infoData, tr2, iconData, gi, gic. cbv zeta.
  split; [reflexivity|]. split; [exact H2|]. split; [exact H3|].
  split; [exact H4|]. split; [exact H5 | reflexivity].
Qed.

Lemma gamesData_ok_inv E req now rs r :
  result (gamesData E req now rs) = Responded r -> status r = 200 ->
  exists ids,
    method req = "GET" /\
    (rateLimit (getClientIp req) 30 60 now rs).1 = true /\
    URL_searchParam_ids E (url req)
      ("https://" +:+ default "localhost" (nonempty_header (h_host req))) = Some ids /\
    validatePlaceIds (default "" ids) <> [] /\
    aggregate E (validatePlaceIds (default "" ids)) []
    = (Ok r, calls (gamesData E req now rs)).
Proof.
  unfold gamesData.
  destruct (String.eqb (method req) "OPTIONS");
    [intros [= <-]; discriminate|].
  destruct (String.eqb (method req) "GET") eqn:Hget;
    [|intros [= <-]; discriminate].
  apply String.eqb_eq in Hget. cbn [negb].
  destruct (rateLimit (getClientIp req) 30 60 now rs) as [[|] rs'];
    [|intros [= <-]; discriminate].
  cbn [negb].
  destruct (URL_searchParam_ids E (url req) _) as [ids|]; [|discriminate].
  destruct (validatePlaceIds (default "" ids)) as [|p ps] eqn:Hids;
    [intros [= <-]; discriminate|].
  destruct (aggregate E (p :: ps) []) as [[r'|] tr] eqn:Hagg;
    [|intros [= <-]; discriminate].
  cbn [result calls]. intros [= ->] _.
  exists ids. rewrite Hids. repeat split; try assumption; try reflexivity.
  discriminate.
Qed.

Lemma gamesData_reaches_aggregate E req now rs ids :
  method req = "GET" ->
  (rateLimit (getClientIp req) 30 60 now rs).1 = true ->
  URL_searchParam_ids E (url req)
    ("https://" +:+ default "localhost" (nonempty_header (h_host req))) = Some ids ->
  retained_spec (default "" ids) <> [] ->
  gamesData E req now rs
  = {| result :=
         match (aggregate E (retained_spec (default "" ids)) []).1 with
         | Ok r => Responded r
         | Thrown =>
             Responded (error_response 500
               "An error occurred while fetching game data. Please try again."
               (Some 500))
         end;
       rateState_after := (rateLimit (getClientIp req) 30 60 now rs).2;
       calls := (aggregate E (retained_spec (default "" ids)) []).2 |}.
Proof.
  intros Hget Hadm Hids Hne. rewrite <- validatePlaceIds_retained in *.
  enter_get Hget.
  destruct (rateLimit (getClientIp req) 30 60 now rs) as [adm rs'].
  simpl in Hadm. subst adm. cbn [negb snd]. rewrite Hids.
  destruct (validatePlaceIds (default "" ids)) as [|p ps]; [congruence|].
  destruct (aggregate E (p :: ps) []) as [[r|] tr]; reflexivity.
Qed.

(** ** The maps built from the batch bodies *)

Lemma data_array_entries d : data_array d = entries d.
Proof.
  unfold data_array, entries.
  destruct d as [|b|n|s|items|props]; try reflexivity;
    destruct (truthy _); reflexivity.
Qed.

Lemma or_null_get_prop x k : or_null (get_prop x k) = field x k.
Proof. destruct x; reflexivity. Qed.


Lemma last_filter_cons {A} (f : A -> bool) y l :
  last (List.filter f (y :: l))
  = match last (List.filter f l) with
    | Some z => Some z
    | None => if f y then Some y else None
    end.
Proof.
  cbn [List.filter]. destruct (f y); [apply last_cons|].
  destruct (last (List.filter f l)); reflexivity.
Qed.

(** One turn of the metadata loop: it throws on an identifier without a
    string, and otherwise files the element under the string of its
    identifier, the name [__proto__] excepted. *)
Lemma gameInfo_step_cases E m g :
  (unconvertible E "id" g = true /\ gameInfo_step E m g = None) \/
  (unconvertible E "id" g = false /\
   exists m', gameInfo_step E m g = Some m' /\
     m' !! "__proto__" = m !! "__proto__" /\
     forall k, k <> "__proto__" ->
       m' !! k = if filed_under E "id" k g
                 then Some (field g "name", field g "visits")
                 else m !! k).
Proof.
  assert (Hskip : forall m0 : gmap string (value * value),
             exists m', Some m0 = Some m' /\
               m' !! "__proto__" = m0 !! "__proto__" /\
               forall k, k <> "__proto__" -> m' !! k = m0 !! k)
    by (intros m0; exists m0; auto).
  unfold gameInfo_step, unconvertible, filed_under.
  destruct g as [|b|n|s|items|props];
    try (right; split; [reflexivity|];
         destruct (truthy _); cbn [andb not_nullish]; apply Hskip).
  cbn [truthy get_prop andb].
  destruct (assoc "id" props) as [v|] eqn:Hid;
    [|right; split; [reflexivity | apply Hskip]].
  destruct (ToString E v) as [s|] eqn:Hs.
  - right. split; [destruct v; reflexivity|].
    assert (Hset : exists m',
               Some (info_set s (or_null (get_prop (VObj props) "name"),
                                 or_null (get_prop (VObj props) "visits")) m)
               = Some m' /\
               m' !! "__proto__" = m !! "__proto__" /\
               forall k, k <> "__proto__" ->
                 m' !! k = if String.eqb s k
                           then Some (field (VObj props) "name",
                                      field (VObj props) "visits")
                           else m !! k).
    { eexists. split; [reflexivity|]. rewrite !or_null_get_prop.
      unfold info_set. destruct (String.eqb s "__proto__") eqn:Hp.
      - apply String.eqb_eq in Hp. subst s. split; [reflexivity|].
        intros k Hk. replace (String.eqb "__proto__" k) with false; [reflexivity|].
        symmetry. apply String.eqb_neq. congruence.
      - apply String.eqb_neq in Hp. split; [apply lookup_insert_ne; exact Hp|].
        intros k _. destruct (String.eqb s k) eqn:Hk.
        + apply String.eqb_eq in Hk. subst k. apply lookup_insert_eq.
        + apply String.eqb_neq in Hk. apply lookup_insert_ne. exact Hk. }
    destruct v; cbn [not_nullish or_null default id] in *;
      first [exact (Hskip m) | rewrite Hs; exact Hset].
  - left. destruct v; cbn [not_nullish or_null default id] in *;
      try discriminate Hs; rewrite Hs; split; reflexivity.
Qed.

(** The metadata loop: it throws exactly when some element has an identifier
    without a string; otherwise the map holds, under every name but
    [__proto__], the last element filed under it. *)
Lemma gameInfo_loop_spec E items : forall m0,
  (gameInfo_loop E items m0 = None <->
   exists g, In g items /\ unconvertible E "id" g = true) /\
  (forall m, gameInfo_loop E items m0 = Some m ->
     m !! "__proto__" = m0 !! "__proto__" /\
     forall k, k <> "__proto__" ->
       m !! k = match last (List.filter (filed_under E "id" k) items) with
                | Some g => Some (field g "name", field g "visits")
                | None => m0 !! k
                end).
Proof.
  induction items as [|g rest IH]; intros m0.
  - split.
    + split; [discriminate | intros (g & [] & _)].
    + intros m [= <-]. auto.
  - cbn [gameInfo_loop].
    destruct (gameInfo_step_cases E m0 g)
      as [[Hu ->] | (Hu & m1 & -> & Hp1 & Hk1)].
    + split; [|discriminate].
      split; [intros _; exists g; split; [left; reflexivity | exact Hu] | reflexivity].
    + destruct (IH m1) as [IHn IHs]. split.
      * rewrite IHn. split.
        -- intros (g' & Hin & Hg'). exists g'. split; [right; exact Hin | exact Hg'].
        -- intros (g' & [<- | Hin] & Hg'); [congruence|]. exists g'. auto.
      * intros m Hm. destruct (IHs m Hm) as [Hp Hk]. split; [congruence|].
        intros k Hne. rewrite (Hk k Hne), last_filter_cons.
        destruct (last (List.filter (filed_under E "id" k) rest)); [reflexivity|].
        rewrite (Hk1 k Hne). destruct (filed_under E "id" k g); reflexivity.
Qed.

Lemma gameInfo_of_lookup E infoData gi uid :
  gameInfo_of E infoData = Some gi -> uid <> "__proto__" ->
  gi !! uid = match metadata_for E infoData uid with
              | Some g => Some (field g "name", field g "visits")
              | None => None
              end.
Proof.
  unfold gameInfo_of, metadata_for. rewrite data_array_entries. intros Hgi Hne.
  destruct (proj2 (gameInfo_loop_spec E (entries infoData) ∅) gi Hgi) as [_ Hk].
  rewrite (Hk uid Hne).
  destruct (last _); [reflexivity | apply lookup_empty].
Qed.








(** ** Canonical identifiers are never the name [__proto__] *)







(** ** The admin gate *)

Lemma requireAdmin_ok_conditions E env req payload csrf :
  requireAdmin E env req = Ok (AuthOk payload csrf) ->
  parseAllowlist env <> [] /\
  (In (getClientIp req) (parseAllowlist env) \/
   In "::1" (parseAllowlist env) \/ In "127.0.0.1" (parseAllowlist env)) /\
  exists secret cookies token,
    getJwtSecret env = Some secret /\
    parseCookies E req = Ok cookies /\
    cookies !! COOKIE_NAME = Some token /\ token <> EmptyString /\
    jwtVerify E token secret = Some payload.
Proof.
  unfold requireAdmin.
  destruct (isIpAllowed env req) eqn:Hip; [|discriminate]. cbn [negb].
  destruct (getJwtSecret env) as [secret|] eqn:Hsec; [|discriminate].
  destruct (parseCookies E req) as [cookies|] eqn:Hck; [|discriminate].
  destruct (cookies !! COOKIE_NAME) as [token|] eqn:Htok; [|discriminate].
  cbn [nonempty_header].
  destruct (str_truthy token) eqn:Hne; [|discriminate].
  destruct (jwtVerify E token secret) as [p|] eqn:Hjwt; [|discriminate].
  intros [= <- _].
  unfold isIpAllowed in Hip.
  destruct (parseAllowlist env) as [|a l] eqn:Hal; [discriminate|].
  split; [discriminate|]. split.
  - apply orb_true_iff in Hip as [Hip | Hip];
      [apply orb_true_iff in Hip as [Hip | Hip]|];
      apply mem_In in Hip; tauto.
  - exists secret, cookies, token. repeat split; try assumption.
    intros ->. discriminate.
Qed.

(** With no allow-list, or an empty one, nobody is admitted. *)
Lemma requireAdmin_fail_closed E env req :
  absent (ADMIN_ALLOWLIST env) -> requireAdmin E env req = Ok (AuthFail "ip").
Proof.
  intros Habs. unfold requireAdmin, isIpAllowed, parseAllowlist.
  destruct Habs as [-> | ->]; reflexivity.
Qed.

(** When the session check fails, [requireAdminOr404] reports [ended] without
    having written anything, and the handlers return on it: no response. *)
Lemma admin_crud_gate_auth_failure E env req reason :
  requireAdmin E env req = Ok (AuthFail reason) ->
  admin_crud_gate E env req = Some Silent.
Proof.
  intros H. unfold admin_crud_gate, requireAdminOr404. rewrite H. reflexivity.
Qed.

(** * The claims *)



(** C2 as stated fails where floor and truncation differ: with a visit count
    of -1.5 on the two records of universe 1001, [totalVisits] is "-4" while
    the truncations sum to -2. *)
Lemma total_visits_not_truncation :
  exists r data tv n,
    result (gamesData (Sample.env_for (VNum (Finite (-3 # 2)))) Sample.req 5000 ∅)
    = Responded r /\
    status r = 200 /\ payload r = BData data tv n /\
    tv = "-4" /\ pretty (trunc_sum data) = "-2" /\
    tv <> pretty (trunc_sum data).
Proof.
  eexists {| status := 200; payload := BData _ _ _; cache_control := _ |}, _, _, _.
  split; [vm_compute; reflexivity|].
  repeat split; try (vm_compute; reflexivity).
  vm_compute. discriminate.
Qed.

(** Beyond the safe integers the total is a rounded double, or an infinity:
    two visit counts of [2^1023] make [totalVisits] the string "Infinity". *)
Lemma total_visits_overflow :
  exists data,
    result (gamesData (Sample.env_for (VNum (Finite (inject_Z (2 ^ 1023)))))
              Sample.req 5000 ∅)
    = Responded {| status := 200; payload := BData data "Infinity" 3;
                   cache_control := Some "public, max-age=60, s-maxage=60" |}.
Proof. eexists. vm_compute. reflexivity. Qed.

(** C2 (amended). In a response answered 200, as long as the running sum
    stays below [2^53] in magnitude (where the addition of doubles is exact),
    [totalVisits] is the decimal string of the sum, over the records whose
    visit count is a finite number, of the floor of that count ([Math.floor]:
    the greatest integer not above it, which is the truncation for counts
    that are not negative); the other records contribute 0. *)
Theorem total_visits_floor_sum E req now rs r data tv n :
  result (gamesData E req now rs) = Responded r -> status r = 200 ->
  payload r = BData data tv n ->
  (forall k, Z.abs (floor_sum (take k data)) < 2 ^ 53) ->
  tv = pretty (floor_sum data).
Proof.
  intros Hres Hst Hpay Hsafe.
  destruct (gamesData_ok_inv E req now rs r Hres Hst)
    as (ids & _ & _ & _ & _ & Hagg).
  destruct (aggregate_inv _ _ _ _ _ Hagg)
    as (um & tr1 & infoData & tr2 & iconData & gi & gic & _ & _ & _ & _ & _ & ->).
  cbn [payload] in Hpay. injection Hpay as <- <- _.
  rewrite accumulate_exact by exact Hsafe. cbn [dbl_number Z.add].
  apply NumberToString_safe.
  specialize (Hsafe (length (map (join_record um gi gic)
                               (validatePlaceIds (default "" ids))))).
  rewrite firstn_all in Hsafe. exact Hsafe.
Qed.

Lemma total_visits_floor_sum_witness :
  exists r data,
    result (gamesData Sample.E Sample.req 5000 ∅) = Responded r /\
    payload r = BData data "200" 3 /\
    pretty (floor_sum data) = "200".
Proof.
  eexists {| status := 200; payload := BData _ _ _; cache_control := _ |}, _.
  assert (Hres : result (gamesData Sample.E Sample.req 5000 ∅)
                 = Responded
                     match result (gamesData Sample.E Sample.req 5000 ∅) with
                     | Responded r => r
                     | _ => error_response 0 "" None
                     end) by (vm_compute; reflexivity).
  split; [vm_compute; reflexivity|]. split; [reflexivity|].
  symmetry. eapply (total_visits_floor_sum Sample.E Sample.req 5000 ∅ _ _ _ 3).
  - exact Hres.
  - vm_compute. reflexivity.
  - vm_compute. reflexivity.
  - intros [|[|[|[|k]]]]; vm_compute; reflexivity.
Defined.

(** C3. The retained identifier list is the first 20 of the comma-separated,
    trimmed tokens of [ids] that match [^\d{1,20}$], in their order (so a
    malformed or excess token changes nothing about the valid ones); a
    request that reaches the parsing with no valid token is answered 400
    "No valid place IDs provided" with no outbound call, and no 200 response
    carries an empty [data]. *)
Theorem retained_ids_and_empty_guard :
  (forall idsStr, validatePlaceIds idsStr = retained_spec idsStr) /\
  (forall E req now rs ids,
      method req = "GET" ->
      (rateLimit (getClientIp req) 30 60 now rs).1 = true ->
      URL_searchParam_ids E (url req)
        ("https://" +:+ default "localhost" (nonempty_header (h_host req))) = Some ids ->
      retained_spec (default "" ids) = [] ->
      result (gamesData E req now rs)
      = Responded (error_response 400
                     "No valid place IDs provided. IDs must be numeric." (Some 400))
      /\ calls (gamesData E req now rs) = []) /\
  (forall E req now rs r,
      result (gamesData E req now rs) = Responded r -> status r = 200 ->
      exists data tv, payload r = BData data tv (length data) /\ data <> []).
Proof.
  split; [exact validatePlaceIds_retained|]. split.
  - intros E req now rs ids Hget Hadm Hids Hempty.
    rewrite <- validatePlaceIds_retained in Hempty.
    enter_get Hget.
    destruct (rateLimit (getClientIp req) 30 60 now rs) as [adm rs'].
    simpl in Hadm. subst adm. cbn [negb]. rewrite Hids, Hempty.
    split; reflexivity.
  - intros E req now rs r Hres Hst.
    destruct (gamesData_ok_inv E req now rs r Hres Hst)
      as (ids & _ & _ & _ & Hne & Hagg).
    destruct (aggregate_inv _ _ _ _ _ Hagg)
      as (um & tr1 & infoData & tr2 & iconData & gi & gic & _ & _ & _ & _ & _ & ->).
    eexists _, _. split; [reflexivity|].
    destruct (validatePlaceIds (default "" ids)); [congruence | discriminate].
Qed.

Lemma retained_ids_and_empty_guard_witness :
  let req := Sample.get "/api/gamesData?ids=abc,,12x, ,123456789012345678901" "203.0.113.7" in
  method req = "GET" /\
  retained_spec "abc,,12x, ,123456789012345678901" = [] /\
  result (gamesData Sample.E req 5000 ∅)
  = Responded (error_response 400
                 "No valid place IDs provided. IDs must be numeric." (Some 400)) /\
  calls (gamesData Sample.E req 5000 ∅) = [].
Proof.
  intros req. split; [reflexivity|]. split; [reflexivity|].
  apply (proj1 (proj2 retained_ids_and_empty_guard) Sample.E req 5000 ∅
           (Some "abc,,12x, ,123456789012345678901"));
    reflexivity.
Defined.

(** C4 as stated fails: a POST from an allowed address with a valid session
    and no CSRF header is answered 403 "Invalid CSRF token", not 404. *)
Lemma csrf_failure_is_forbidden :
  let req := Sample.admin_req "POST" "154.238.160.118" None in
  requireAdmin Sample.E Sample.penv_strict req
  = Ok (AuthOk (VObj [("username", VStr "admin")]) (Some "abc")) /\
  csrf_mismatch (h_x_csrf_token req) (Some "abc") /\
  admin_crud_gate Sample.E Sample.penv_strict req
  = Some (Responded (error_response 403 "Invalid CSRF token" None)) /\
  status (error_response 403 "Invalid CSRF token" None) <> 404.
Proof.
  intros req. split; [vm_compute; reflexivity|]. split.
  - intros t Ht. discriminate Ht.
  - split; [vm_compute; reflexivity | discriminate].
Qed.

(** C4 (amended). The login page, the login handler and the logout handler
    answer 404 "Not Found" to an address that fails the allow-list check. In
    the admin CRUD handlers, a request that passes the session check and uses
    a state-changing method (POST, PUT, DELETE, PATCH) without a CSRF header
    equal to the CSRF cookie is answered 403 "Invalid CSRF token"; with a
    matching header, or with another method, it passes the gate. *)
Theorem admin_gate_responses E env req :
  (isIpAllowed env req = false ->
     (exists r, page_login env req = Responded r /\ status r = 404) /\
     login_logout_gate env req = Some (Responded not_found_json)) /\
  (forall payload csrf,
     requireAdmin E env req = Ok (AuthOk payload csrf) ->
     In (method req) ["POST"; "PUT"; "DELETE"; "PATCH"] ->
     csrf_mismatch (h_x_csrf_token req) csrf ->
     admin_crud_gate E env req
     = Some (Responded (error_response 403 "Invalid CSRF token" None))) /\
  (forall payload csrf,
     requireAdmin E env req = Ok (AuthOk payload csrf) ->
     (~ In (method req) ["POST"; "PUT"; "DELETE"; "PATCH"] \/
      exists t, t <> EmptyString /\ h_x_csrf_token req = Some t /\ csrf = Some t) ->
     admin_crud_gate E env req = None).
Proof.
  split; [|split].
  - intros Hip. unfold page_login, login_logout_gate. rewrite Hip. cbn [negb].
    split; [eexists; split; reflexivity | reflexivity].
  - intros payload csrf Hauth Hm Hmis.
    unfold admin_crud_gate, requireAdminOr404. rewrite Hauth.
    assert (Hw : isWrite (method req) = true).
    { simpl in Hm. destruct Hm as [<-|[<-|[<-|[<-|[]]]]]; reflexivity. }
    rewrite Hw. cbn [andb].
    assert (Hno : match nonempty_header (h_x_csrf_token req), csrf with
                  | Some h, Some c => String.eqb h c
                  | _, _ => false
                  end = false).
    { destruct (h_x_csrf_token req) as [t|] eqn:Hh; [|reflexivity].
      destruct (Hmis t eq_refl) as [-> | Hne]; [reflexivity|].
      cbn [nonempty_header]. destruct (str_truthy t); [|reflexivity].
      destruct csrf as [c|]; [|reflexivity].
      apply String.eqb_neq. congruence. }
    rewrite Hno. reflexivity.
  - intros payload csrf Hauth Hcase.
    unfold admin_crud_gate, requireAdminOr404. rewrite Hauth.
    destruct Hcase as [Hm | (t & Hne & Hh & ->)].
    + assert (Hw : isWrite (method req) = false).
      { unfold isWrite. simpl in Hm.
        repeat (apply orb_false_iff; split); apply String.eqb_neq; intros Heq;
          apply Hm; rewrite Heq; tauto. }
      rewrite Hw. reflexivity.
    + rewrite Hh. rewrite (nonempty_header_Some _ _ eq_refl Hne).
      rewrite String.eqb_refl. rewrite andb_false_r. reflexivity.
Qed.

Lemma admin_gate_responses_witness :
  let req := Sample.admin_req "DELETE" "154.238.160.118" (Some "stale") in
  In (method req) ["POST"; "PUT"; "DELETE"; "PATCH"] /\
  csrf_mismatch (h_x_csrf_token req) (Some "abc") /\
  admin_crud_gate Sample.E Sample.penv_strict req
  = Some (Responded (error_response 403 "Invalid CSRF token" None)).
Proof.
  intros req.
  assert (Hm : In (method req) ["POST"; "PUT"; "DELETE"; "PATCH"])
    by (simpl; tauto).
  assert (Hmis : csrf_mismatch (h_x_csrf_token req) (Some "abc"))
    by (intros t [= <-]; right; discriminate).
  split; [exact Hm|]. split; [exact Hmis|].
  apply (proj1 (proj2 (admin_gate_responses Sample.E Sample.penv_strict req))
           (VObj [("username", VStr "admin")]) (Some "abc"));
    [vm_compute; reflexivity | exact Hm | exact Hmis].
Defined.

(** C5. A GET request from an address whose bucket already holds 30
    timestamps within the preceding 60 seconds is answered 429 with the error
    envelope, with no outbound call and whatever the request URL parses to
    (the answer is the same in every environment); the address is the trimmed
    first comma-separated value of [x-forwarded-for], else the trimmed
    [x-real-ip], else the peer address of the socket. *)
Theorem rate_limited_before_processing E req now rs :
  method req = "GET" ->
  (30 <= length (recent now (default [] (rs !! getClientIp req))))%nat ->
  gamesData E req now rs
  = {| result := Responded (error_response 429
                   "Rate limit exceeded. Please try again later." (Some 429));
       rateState_after :=
         <[getClientIp req := fresh_of now 60 (default [] (rs !! getClientIp req))]> rs;
       calls := [] |}
  /\ (forall E', gamesData E' req now rs = gamesData E req now rs)
  /\ (forall xf, h_x_forwarded_for req = Some xf -> xf <> EmptyString ->
        getClientIp req = trim (before_comma xf))
  /\ (absent (h_x_forwarded_for req) ->
      forall xr, h_x_real_ip req = Some xr -> xr <> EmptyString ->
        getClientIp req = trim xr)
  /\ (absent (h_x_forwarded_for req) -> absent (h_x_real_ip req) ->
      forall a, remoteAddress req = Some a -> a <> EmptyString ->
        getClientIp req = a).
Proof.
  intros Hget Hfull.
  assert (Hrun : forall E0, gamesData E0 req now rs
    = {| result := Responded (error_response 429
                     "Rate limit exceeded. Please try again later." (Some 429));
         rateState_after :=
           <[getClientIp req := fresh_of now 60 (default [] (rs !! getClientIp req))]> rs;
         calls := [] |}).
  { intros E0. enter_get Hget.
    rewrite rateLimit_denied; [reflexivity|].
    pose proof (recent_le_fresh now (default [] (rs !! getClientIp req))). lia. }
  split; [apply Hrun|]. split; [intros E'; rewrite !Hrun; reflexivity|].
  unfold getClientIp. repeat split.
  - intros xf Hxf Hne. rewrite (nonempty_header_Some _ _ Hxf Hne).
    rewrite first_piece_split. reflexivity.
  - intros Hxf xr Hxr Hne. rewrite (nonempty_header_None _ Hxf).
    rewrite (nonempty_header_Some _ _ Hxr Hne). reflexivity.
  - intros Hxf Hxr a Ha Hne. rewrite (nonempty_header_None _ Hxf).
    rewrite (nonempty_header_None _ Hxr).
    rewrite (nonempty_header_Some _ _ Ha Hne). reflexivity.
Qed.

Lemma rate_limited_before_processing_witness :
  method Sample.req = "GET" /\
  (30 <= length (recent 31000 (default [] (Sample.busy !! getClientIp Sample.req))))%nat /\
  result (gamesData Sample.E Sample.req 31000 Sample.busy)
  = Responded (error_response 429
                 "Rate limit exceeded. Please try again later." (Some 429)) /\
  calls (gamesData Sample.E Sample.req 31000 Sample.busy) = [].
Proof.
  assert (H1 : method Sample.req = "GET") by reflexivity.
  assert (H2 : (30 <= length (recent 31000
                  (default [] (Sample.busy !! getClientIp Sample.req))))%nat)
    by (vm_compute; lia).
  split; [exact H1|]. split; [exact H2|].
  rewrite (proj1 (rate_limited_before_processing Sample.E Sample.req 31000
                    Sample.busy H1 H2)).
  split; reflexivity.
Defined.

(** C6. When the host of the URL is not one of the three allowed hosts,
    [fetchJson] returns [null] without calling [fetch] and without throwing;
    when the call is made and ends in a network error, a timeout, a redirect,
    a status outside 2xx or a malformed body, it returns [null] as well. On
    [null] the dependent values take their defaults: the place identifier
    stands for the canonical one, the metadata and icon maps are empty, and
    a record joined on them has [null] name, visit count and icon. *)
Theorem fetchJson_degrades E u h tr :
  URL_host E u = Some h ->
  (~ In h ["apis.roblox.com"; "games.roblox.com"; "thumbnails.roblox.com"] ->
     fetchJson E u tr = (Ok VNull, tr)) /\
  (In h ["apis.roblox.com"; "games.roblox.com"; "thumbnails.roblox.com"] ->
   failure (fetch E (length tr) u) ->
     fetchJson E u tr = (Ok VNull, tr ++ [u])) /\
  (forall pid tr0 tr1,
     fetchJson E (universe_url pid) tr0 = (Ok VNull, tr1) ->
     placeToUniverseId E pid tr0 = (Ok pid, tr1)) /\
  gameInfo_of E VNull = Some ∅ /\
  gameIcons_of E VNull = Some icons_empty /\
  (forall um pid,
     join_record um ∅ icons_empty pid
     = {| inputId := pid; universeId := assoc pid um;
          name := VNull; visits := VNull; icon := VNull |}).
Proof.
  intros Hh. repeat split.
  - intros Hnot. apply (fetchJson_refused E u h tr Hh).
    apply mem_not_In. exact Hnot.
  - intros Hin Hfail. rewrite (fetchJson_allowed E u h tr Hh).
    + rewrite json_of_failure by exact Hfail. reflexivity.
    + apply mem_In. exact Hin.
  - intros pid tr0 tr1 Hf. unfold placeToUniverseId, bind. rewrite Hf. reflexivity.
Qed.

Lemma fetchJson_degrades_witness :
  let u := "https://evil.example/v1/games?universeIds=1" in
  URL_host Sample.E u = Some "evil.example" /\
  fetchJson Sample.E u [] = (Ok VNull, []) /\
  fetchJson Sample.E (icons_url ["1001"; "1002"]) [] = (Ok VNull, [icons_url ["1001"; "1002"]]).
Proof.
  intros u.
  assert (H1 : URL_host Sample.E u = Some "evil.example") by reflexivity.
  assert (H2 : URL_host Sample.E (icons_url ["1001"; "1002"]) = Some "thumbnails.roblox.com")
    by reflexivity.
  split; [exact H1|]. split.
  - apply (proj1 (fetchJson_degrades Sample.E u "evil.example" [] H1)).
    simpl. intros [H|[H|[H|[]]]]; discriminate H.
  - apply (proj1 (proj2 (fetchJson_degrades Sample.E _ "thumbnails.roblox.com" [] H2))).
    + simpl. tauto.
    + left. reflexivity.
Defined.

(** C7. For a place identifier, [placeToUniverseId] makes one lookup call and
    returns (never throws): the [universeId] of the body as a string when the
    call succeeds with a 2xx status and a body object whose [universeId] is a
    number or an all-digit string (the decimal digits of a safe non-negative
    integer, the string itself), and the place identifier unchanged in every
    other case, in particular after a network error, a timeout, a redirect, a
    status outside 2xx or a malformed body. *)
Theorem canonical_resolution E pid tr :
  parses_hosts E ->
  let o := fetch E (length tr) (universe_url pid) in
  exists uid,
    placeToUniverseId E pid tr = (Ok uid, tr ++ [universe_url pid]) /\
    match upstream_universeId o with
    | Some u => ToString E u = Some uid
    | None => uid = pid
    end /\
    (forall z, 0 <= z < 2 ^ 53 ->
       upstream_universeId o = Some (VNum (Finite (inject_Z z))) -> uid = pretty z) /\
    (forall s, upstream_universeId o = Some (VStr s) -> uid = s) /\
    (failure o -> uid = pid).
Proof.
  intros H o. destruct (placeToUniverseId_run E H pid tr) as (uid & Huid & Hrun).
  exists uid. split; [exact Hrun|].
  fold o in Huid. rewrite universe_of_spec in Huid. repeat split.
  - destruct (upstream_universeId o); [exact Huid | congruence].
  - intros z Hz Hu. rewrite Hu in Huid. cbn [ToString] in Huid.
    rewrite NumberToString_safe in Huid by lia. congruence.
  - intros s Hu. rewrite Hu in Huid. cbn [ToString] in Huid. congruence.
  - intros Hf. rewrite upstream_universeId_failure in Huid by exact Hf. congruence.
Qed.

Lemma canonical_resolution_witness :
  parses_hosts Sample.E /\
  placeToUniverseId Sample.E "123" [] = (Ok "1001", [universe_url "123"]) /\
  placeToUniverseId Sample.E "999" [] = (Ok "999", [universe_url "999"]).
Proof.
  assert (H : parses_hosts Sample.E) by (intros rest; repeat split; reflexivity).
  split; [exact H|]. split.
  - destruct (canonical_resolution Sample.E "123" [] H) as (uid & Hrun & Huid & _).
    rewrite Hrun. vm_compute in Huid. injection Huid as <-. reflexivity.
  - destruct (canonical_resolution Sample.E "999" [] H) as (uid & Hrun & Huid & _).
    rewrite Hrun. vm_compute in Huid. rewrite Huid. reflexivity.
Defined.

(** C8. A GET request that passes the limiter with a non-empty retained list
    is answered after making one lookup per retained identifier and then
    exactly one metadata call and one icon call. The [universeIds] parameter
    of both is the comma-joined list of the canonical identifiers without
    repetition: every canonical identifier some retained identifier resolved
    to is in it, once, and nothing else. This holds whether the answer is
    200 or, a batch body having held an identifier that has no string, 500:
    the calls are made before the bodies are read. *)
Theorem batch_calls_deduplicated E req now rs ids :
  parses_hosts E ->
  method req = "GET" ->
  (rateLimit (getClientIp req) 30 60 now rs).1 = true ->
  URL_searchParam_ids E (url req)
    ("https://" +:+ default "localhost" (nonempty_header (h_host req))) = Some ids ->
  retained_spec (default "" ids) <> [] ->
  exists r um uniq,
    result (gamesData E req now rs) = Responded r /\
    (status r = 200 \/ status r = 500) /\
    resolve_all E (retained_spec (default "" ids)) [] []
    = (Ok um, map universe_url (retained_spec (default "" ids))) /\
    calls (gamesData E req now rs)
    = map (fun pid => "https://apis.roblox.com/universes/v1/places/" +:+ pid +:+ "/universe")
        (retained_spec (default "" ids))
      ++ ["https://games.roblox.com/v1/games?universeIds=" +:+ join "," uniq;
          "https://thumbnails.roblox.com/v1/games/icons?universeIds=" +:+ join "," uniq
          +:+ "&size=420x420&format=Png&isCircular=false"] /\
    List.NoDup uniq /\
    (forall u, In u uniq <->
       exists pid, In pid (retained_spec (default "" ids)) /\ assoc pid um = Some u) /\
    length (List.filter is_games_call (calls (gamesData E req now rs))) = 1%nat /\
    length (List.filter is_icons_call (calls (gamesData E req now rs))) = 1%nat.
Proof.
  intros Hhosts Hget Hadm Hids Hne.
  rewrite (gamesData_reaches_aggregate E req now rs ids Hget Hadm Hids Hne).
  set (placeIds := retained_spec (default "" ids)) in *.
  destruct (aggregate_calls E Hhosts placeIds []) as (um & Hres1 & Hcalls).
  cbn [app] in Hres1, Hcalls. cbn [result calls]. rewrite Hcalls.
  set (uniq := set_spread [] (Object_values um)) in *.
  destruct (resolve_all_keys _ _ _ _ _ _ Hres1 (List.NoDup_nil _)) as [Hnd Hkeys].
  assert (Hr : exists r,
             match (aggregate E placeIds []).1 with
             | Ok r => Responded r
             | Thrown =>
                 Responded (error_response 500
                   "An error occurred while fetching game data. Please try again."
                   (Some 500))
             end = Responded r /\ (status r = 200 \/ status r = 500)).
  { destruct (aggregate E placeIds []) as [[r|] tr] eqn:Hagg; cbn [fst].
    - exists r. split; [reflexivity|]. left.
      destruct (aggregate_inv _ _ _ _ _ Hagg)
        as (? & ? & ? & ? & ? & ? & ? & _ & _ & _ & _ & _ & ->). reflexivity.
    - eexists. split; [reflexivity|]. right. reflexivity. }
  destruct Hr as (r & Hr & Hst). exists r, um, uniq.
  split; [exact Hr|]. split; [exact Hst|]. split; [exact Hres1|].
  split; [reflexivity|]. split; [apply set_spread_NoDup|]. split.
  - intros u. unfold uniq. rewrite set_spread_In, Object_values_In. split.
    + intros [[k Hin] _]. exists k. split.
      * assert (Hk : In k (map fst um))
          by (change k with (fst (k, u)); apply in_map; exact Hin).
        apply (proj1 (Hkeys k)) in Hk as [Hk | []]. exact Hk.
      * apply assoc_In; assumption.
    + intros [pid [_ Hassoc]]. split; [|simpl; tauto].
      exists pid. apply assoc_In; assumption.
  - rewrite !List.filter_app, !length_app.
    rewrite !filter_universe_calls by (intros pid; reflexivity).
    split; reflexivity.
Qed.

Lemma batch_calls_deduplicated_witness :
  parses_hosts Sample.E /\
  calls (gamesData Sample.E Sample.req 5000 ∅)
  = ["https://apis.roblox.com/universes/v1/places/123/universe";
     "https://apis.roblox.com/universes/v1/places/123/universe";
     "https://apis.roblox.com/universes/v1/places/456/universe";
     "https://games.roblox.com/v1/games?universeIds=1001,1002";
     "https://thumbnails.roblox.com/v1/games/icons?universeIds=1001,1002&size=420x420&format=Png&isCircular=false"] /\
  length (List.filter is_games_call (calls (gamesData Sample.E Sample.req 5000 ∅))) = 1%nat /\
  length (List.filter is_icons_call (calls (gamesData Sample.E Sample.req 5000 ∅))) = 1%nat.
Proof.
  assert (H : parses_hosts Sample.E) by (intros rest; repeat split; reflexivity).
  destruct (batch_calls_deduplicated Sample.E Sample.req 5000 ∅ (Some "123,123,456") H)
    as (r & um & uniq & _ & _ & _ & _ & _ & _ & Hgames & Hicons);
    [reflexivity | reflexivity | reflexivity | discriminate |].
  split; [exact H|]. split; [vm_compute; reflexivity|]. split; assumption.
Defined.

(** C9 fails on the code: with the allow-list of the deployment notes,
    [154.238.160.118,127.0.0.1], a caller at 6.6.6.6 holding a valid session
    cookie is admitted although its address is not on the list, because
    [isIpAllowed] accepts every caller once the list names a loopback
    address. *)
Theorem requireAdmin_passes_unlisted_address :
  let req := Sample.admin_req "GET" "6.6.6.6" None in
  getClientIp req = "6.6.6.6" /\
  parseAllowlist Sample.penv = ["154.238.160.118"; "127.0.0.1"] /\
  ~ In (getClientIp req) (parseAllowlist Sample.penv) /\
  isIpAllowed Sample.penv req = true /\
  requireAdmin Sample.E Sample.penv req
  = Ok (AuthOk (VObj [("username", VStr "admin")]) (Some "abc")).
Proof.
  intros req. split; [reflexivity|]. split; [reflexivity|]. split.
  - vm_compute. intros [H|[H|[]]]; discriminate H.
  - split; vm_compute; reflexivity.
Qed.

(** C10. In every state the limiter can be in, a call leaves no bucket with
    more than 30 timestamps; a denied call leaves the caller's bucket equal to
    its former content pruned to the window (the denied request's time is not
    appended); and after any run of denied calls, a call made once all the
    timestamps the bucket held before the run are 60 seconds old is
    admitted. *)
Theorem rate_bucket_invariant rs ip now :
  reachable rs ->
  bounded (rateLimit_30_60 ip now rs).2 /\
  ((rateLimit_30_60 ip now rs).1 = false ->
     (rateLimit_30_60 ip now rs).2
     = <[ip := fresh_of now 60 (default [] (rs !! ip))]> rs) /\
  (forall nows rs2 T,
     denied_run ip nows rs = Some rs2 ->
     (forall t, In t (default [] (rs !! ip)) -> 60000 <= T - t) ->
     (rateLimit_30_60 ip T rs2).1 = true).
Proof.
  intros Hreach. split; [|split].
  - apply rateLimit_bounded, reachable_bounded, Hreach.
  - destruct (rateLimit_cases ip now rs) as [[_ ->] | [_ ->]];
      [reflexivity | discriminate].
  - intros nows rs2 T Hrun Hold.
    unfold rateLimit_30_60. rewrite rateLimit_granted; [reflexivity|].
    rewrite fresh_of_expired; [simpl; lia|].
    intros t Ht. apply Hold. eapply denied_run_bucket; eassumption.
Qed.

Lemma rate_bucket_invariant_witness :
  reachable Sample.warm /\
  bounded (rateLimit_30_60 "203.0.113.7" 30500 Sample.warm).2 /\
  denied_run "203.0.113.7" [30500; 31000] Sample.warm = Some Sample.warm /\
  (rateLimit_30_60 "203.0.113.7" 90000 Sample.warm).1 = true.
Proof.
  assert (Hreach : reachable Sample.warm) by (apply reachable_foldl; constructor).
  destruct (rate_bucket_invariant Sample.warm "203.0.113.7" 30500 Hreach)
    as (Hb & _ & Hrun).
  split; [exact Hreach|]. split; [exact Hb|].
  assert (Hden : denied_run "203.0.113.7" [30500; 31000] Sample.warm = Some Sample.warm)
    by (vm_compute; reflexivity).
  split; [exact Hden|].
  apply (Hrun [30500; 31000] Sample.warm 90000 Hden).
  intros t Ht. vm_compute in Ht.
  repeat (destruct Ht as [<- | Ht]; [vm_compute; discriminate|]).
  contradiction.
Defined.

(** * Further properties *)

(** ** Strings *)

Lemma digit_not_space c : is_digit c = true -> is_js_space c = false.
Proof.
  destruct c as [[] [] [] [] [] [] [] []]; vm_compute; intros H;
    first [reflexivity | discriminate H].
Qed.

Lemma digit_not_comma c : is_digit c = true -> Ascii.eqb c "," = false.
Proof.
  destruct c as [[] [] [] [] [] [] [] []]; vm_compute; intros H;
    first [reflexivity | discriminate H].
Qed.

Lemma all_digits_spaceless s : all_digits s = true -> spaceless s = true.
Proof.
  induction s as [|c r IH]; simpl; [reflexivity|].
  intros H. apply andb_true_iff in H as [Hc Hr].
  rewrite (digit_not_space c Hc), (IH Hr). reflexivity.
Qed.

Lemma all_digits_lacks_comma s : all_digits s = true -> lacks "," s = true.
Proof.
  induction s as [|c r IH]; simpl; [reflexivity|].
  intros H. apply andb_true_iff in H as [Hc Hr].
  rewrite (digit_not_comma c Hc), (IH Hr). reflexivity.
Qed.

Lemma trimStart_spaceless s : spaceless s = true -> trimStart s = s.
Proof.
  destruct s as [|c r]; simpl; [reflexivity|].
  intros H. apply andb_true_iff in H as [Hc _].
  apply negb_true_iff in Hc. rewrite Hc. reflexivity.
Qed.

Lemma trimEnd_spaceless s : spaceless s = true -> trimEnd s = s.
Proof.
  induction s as [|c r IH]; simpl; [reflexivity|].
  intros H. apply andb_true_iff in H as [Hc Hr].
  apply negb_true_iff in Hc. rewrite (IH Hr), Hc. destruct r; reflexivity.
Qed.

Lemma trim_spaceless s : spaceless s = true -> trim s = s.
Proof.
  intros H. unfold trim. rewrite trimStart_spaceless by exact H.
  apply trimEnd_spaceless. exact H.
Qed.

Lemma split_lacks sep s : lacks sep s = true -> split sep s = [s].
Proof.
  induction s as [|c r IH]; simpl; [reflexivity|].
  intros H. apply andb_true_iff in H as [Hc Hr].
  apply negb_true_iff in Hc. rewrite Hc, (IH Hr). reflexivity.
Qed.

Lemma split_app sep p rest :
  lacks sep p = true -> split sep (p +:+ String sep rest) = p :: split sep rest.
Proof.
  induction p as [|c r IH]; simpl.
  - intros _. rewrite Ascii.eqb_refl. reflexivity.
  - intros H. apply andb_true_iff in H as [Hc Hr].
    apply negb_true_iff in Hc. rewrite Hc, (IH Hr). reflexivity.
Qed.

(** [split] undoes [join] on parts that do not hold the separator. *)
Lemma split_join sep parts :
  parts <> [] ->
  Forall (fun p => lacks sep p = true) parts ->
  split sep (join (String sep EmptyString) parts) = parts.
Proof.
  induction parts as [|p ps IH]; [congruence|].
  intros _ Hall. inversion Hall as [|? ? Hp Hps]; subst.
  destruct ps as [|q qs].
  - simpl. apply split_lacks. exact Hp.
  - change (join (String sep "") (p :: q :: qs))
      with (p +:+ String sep (join (String sep "") (q :: qs))).
    rewrite split_app by exact Hp. f_equal. apply IH; [discriminate | exact Hps].
Qed.

Lemma filter_all_true {A} (f : A -> bool) l :
  Forall (fun x => f x = true) l -> List.filter f l = l.
Proof.
  induction 1 as [|x l Hx _ IH]; simpl; [reflexivity|].
  rewrite Hx, IH. reflexivity.
Qed.

Lemma map_id_on {A} (f : A -> A) l :
  Forall (fun x => f x = x) l -> map f l = l.
Proof.
  induction 1 as [|x l Hx _ IH]; simpl; [reflexivity|].
  rewrite Hx, IH. reflexivity.
Qed.

Lemma re_digits_1_20_inv s :
  re_digits_1_20 s = true ->
  all_digits s = true /\ (1 <= String.length s <= 20)%nat.
Proof.
  unfold re_digits_1_20. intros H.
  apply andb_true_iff in H as [H H3]. apply andb_true_iff in H as [H1 H2].
  apply Nat.leb_le in H2, H3. auto.
Qed.

(** ** validatePlaceIds *)

(** X1. Whatever the query string, every identifier [validatePlaceIds]
    returns is a string of 1 to 20 ASCII digits, obtained by trimming one of
    the comma-separated tokens, and at most 20 are returned. *)
Theorem retained_ids_are_digit_strings idsStr :
  (length (validatePlaceIds idsStr) <= 20)%nat /\
  forall id, In id (validatePlaceIds idsStr) ->
    all_digits id = true /\ (1 <= String.length id <= 20)%nat /\
    spaceless id = true /\
    exists token, In token (split "," idsStr) /\ id = trim token.
Proof.
  split; [apply retained_at_most_20|].
  intros id Hin. rewrite validatePlaceIds_retained in Hin.
  unfold retained_spec in Hin.
  assert (Hf : In id (List.filter re_digits_1_20 (map trim (split "," idsStr)))).
  { rewrite <- (firstn_skipn 20). apply in_or_app. left. exact Hin. }
  apply filter_In in Hf as [Hmap Hre].
  destruct (re_digits_1_20_inv id Hre) as [Hd Hlen].
  split; [exact Hd|]. split; [exact Hlen|].
  split; [apply all_digits_spaceless; exact Hd|].
  apply in_map_iff in Hmap as [token [Heq Htok]].
  exists token. split; [exact Htok | symmetry; exact Heq].
Qed.

Lemma retained_ids_are_digit_strings_witness :
  In "42" (validatePlaceIds "x, 42 ,1e3") /\
  all_digits "42" = true /\ (1 <= String.length "42" <= 20)%nat.
Proof.
  assert (Hin : In "42" (validatePlaceIds "x, 42 ,1e3")) by (vm_compute; tauto).
  split; [exact Hin|].
  destruct (proj2 (retained_ids_are_digit_strings "x, 42 ,1e3") "42" Hin)
    as (Hd & Hlen & _).
  split; assumption.
Defined.

(** X2. The list the front end sends survives the trip: for identifiers that
    are each 1 to 20 digits, [validatePlaceIds] applied to their
    comma-joined text gives the first 20 of them back, unchanged and in
    order. *)
Theorem validatePlaceIds_of_join ids :
  Forall (fun id => re_digits_1_20 id = true) ids ->
  validatePlaceIds (join "," ids) = take 20 ids.
Proof.
  intros Hall. rewrite validatePlaceIds_retained. unfold retained_spec.
  destruct ids as [|i is_]; [reflexivity|].
  rewrite split_join.
  - rewrite map_id_on.
    + rewrite filter_all_true by exact Hall. reflexivity.
    + eapply List.Forall_impl; [|exact Hall]. intros id Hid. simpl.
      apply trim_spaceless, all_digits_spaceless.
      exact (proj1 (re_digits_1_20_inv id Hid)).
  - discriminate.
  - eapply List.Forall_impl; [|exact Hall]. intros id Hid. simpl.
    apply all_digits_lacks_comma. exact (proj1 (re_digits_1_20_inv id Hid)).
Qed.

Lemma validatePlaceIds_of_join_witness :
  validatePlaceIds (join "," ["111021125092689"; "128915436393653"; "93605084835085"])
  = ["111021125092689"; "128915436393653"; "93605084835085"].
Proof.
  apply (validatePlaceIds_of_join
           ["111021125092689"; "128915436393653"; "93605084835085"]).
  repeat constructor.
Defined.

(** ** rateLimit *)

Lemma fresh_of_all now bucket :
  (forall t, In t bucket -> now - t < 60000) -> fresh_of now 60 bucket = bucket.
Proof.
  unfold fresh_of. induction bucket as [|t l IH]; intros H; simpl; [reflexivity|].
  replace (now - t <? 60 * 1000) with true
    by (symmetry; apply Z.ltb_lt; specialize (H t (or_introl eq_refl)); lia).
  f_equal. apply IH. intros t' Ht'. apply H. right. exact Ht'.
Qed.

Lemma fresh_of_fresh now bucket t :
  In t (fresh_of now 60 bucket) -> now - t < 60000.
Proof.
  unfold fresh_of. rewrite filter_In. intros [_ H]. apply Z.ltb_lt in H. lia.
Qed.

(** X3. A call of the limiter touches the caller's bucket only: every other
    address keeps its bucket. The caller's bucket then holds only timestamps
    less than 60 seconds old, and when the call is let through it is the
    pruned bucket (fewer than 30 entries) followed by the time of the
    call. *)
Theorem rateLimit_touches_one_bucket ip now rs :
  (forall k, k <> ip -> (rateLimit_30_60 ip now rs).2 !! k = rs !! k) /\
  exists b,
    (rateLimit_30_60 ip now rs).2 !! ip = Some b /\
    (forall t, In t b -> now - t < 60000) /\
    ((rateLimit_30_60 ip now rs).1 = true ->
       b = fresh_of now 60 (default [] (rs !! ip)) ++ [now] /\
       (length b <= 30)%nat).
Proof.
  destruct (rateLimit_cases ip now rs) as [[Hlen ->] | [Hlen ->]]; cbn [fst snd].
  - split; [intros k Hk; apply lookup_insert_ne; congruence|].
    eexists. split; [apply lookup_insert_eq|]. split.
    + intros t Ht. eapply fresh_of_fresh. exact Ht.
    + discriminate.
  - split; [intros k Hk; apply lookup_insert_ne; congruence|].
    eexists. split; [apply lookup_insert_eq|]. split.
    + intros t Ht. apply in_app_or in Ht as [Ht | [<- | []]].
      * eapply fresh_of_fresh. exact Ht.
      * lia.
    + intros _. split; [reflexivity|]. rewrite length_app. simpl. lia.
Qed.

Lemma run_calls_app ip xs ys rs :
  run_calls ip (xs ++ ys) rs
  = ((run_calls ip xs rs).1 ++ (run_calls ip ys (run_calls ip xs rs).2).1,
     (run_calls ip ys (run_calls ip xs rs).2).2).
Proof.
  revert rs. induction xs as [|x xs IH]; intros rs.
  - simpl. destruct (run_calls ip ys rs). reflexivity.
  - cbn [app run_calls]. destruct (rateLimit_30_60 ip x rs) as [ok rs1].
    rewrite IH. destruct (run_calls ip xs rs1) as [oks rs2]. reflexivity.
Qed.

Lemma run_calls_within ip todo : forall done rs,
  default [] (rs !! ip) = done ->
  (forall a b, In a (done ++ todo) -> In b todo -> b - a < 60000) ->
  (length done + length todo <= 30)%nat ->
  (run_calls ip todo rs).1 = repeat true (length todo) /\
  default [] ((run_calls ip todo rs).2 !! ip) = done ++ todo.
Proof.
  induction todo as [|now rest IH]; intros done rs Hb Hclose Hlen.
  - simpl. rewrite app_nil_r. auto.
  - assert (Hfresh : fresh_of now 60 (default [] (rs !! ip)) = done).
    { rewrite Hb. apply fresh_of_all. intros t Ht.
      apply Hclose; [apply in_or_app; left; exact Ht | left; reflexivity]. }
    assert (Hstep : run_calls ip (now :: rest) rs
                    = (true :: (run_calls ip rest (<[ip := done ++ [now]]> rs)).1,
                       (run_calls ip rest (<[ip := done ++ [now]]> rs)).2)).
    { cbn [run_calls]. unfold rateLimit_30_60.
      rewrite rateLimit_granted by (rewrite Hfresh; simpl in Hlen; lia).
      rewrite Hfresh.
      destruct (run_calls ip rest (<[ip := done ++ [now]]> rs)). reflexivity. }
    rewrite Hstep. cbn [fst snd length repeat].
    destruct (IH (done ++ [now]) (<[ip := done ++ [now]]> rs)) as [Hoks Hbucket].
    + rewrite lookup_insert_eq. reflexivity.
    + intros a b Ha Hin. apply Hclose; [|right; exact Hin].
      rewrite <- app_assoc in Ha. exact Ha.
    + rewrite length_app. simpl in *. lia.
    + rewrite Hoks, Hbucket, <- app_assoc. auto.
Qed.

(** X4. From an address without a bucket, thirty calls made within one
    60-second span are all let through and the thirty-first within that span
    is refused. *)
Theorem thirty_first_request_denied ip rs times t :
  rs !! ip = None ->
  length times = 30%nat ->
  (forall a b, In a (times ++ [t]) -> In b (times ++ [t]) -> b - a < 60000) ->
  (run_calls ip (times ++ [t]) rs).1 = repeat true 30 ++ [false].
Proof.
  intros Hnone Hlen Hclose.
  destruct (run_calls_within ip times [] rs) as [Hoks Hbucket].
  - rewrite Hnone. reflexivity.
  - intros a b Ha Hb. apply Hclose; apply in_or_app; left; assumption.
  - simpl. lia.
  - rewrite run_calls_app. cbn [fst]. rewrite Hoks, Hlen. f_equal.
    cbn [app] in Hbucket. cbn [run_calls snd]. unfold rateLimit_30_60.
    rewrite rateLimit_denied; [reflexivity|].
    rewrite Hbucket, fresh_of_all; [lia|].
    intros a Ha. apply Hclose; apply in_or_app; [left; exact Ha | right; left; reflexivity].
Qed.

Lemma thirty_first_request_denied_witness :
  (run_calls "203.0.113.7" (Sample.full_bucket ++ [30500]) ∅).1
  = repeat true 30 ++ [false].
Proof.
  apply (thirty_first_request_denied "203.0.113.7" ∅ Sample.full_bucket 30500).
  - reflexivity.
  - reflexivity.
  - intros a b Ha Hb.
    assert (Hrange : forall x, In x (Sample.full_bucket ++ [30500]) -> 1000 <= x <= 30500).
    { intros x Hx. vm_compute in Hx.
      repeat (destruct Hx as [<- | Hx]; [lia|]). contradiction. }
    pose proof (Hrange a Ha). pose proof (Hrange b Hb). lia.
Defined.

(** ** Outbound calls of the aggregation *)

Lemma extends_ret {A} E (a : A) : extends E 0 (ret a).
Proof.
  intros tr. exists []. simpl. rewrite app_nil_r. repeat split; [lia | constructor].
Qed.

Lemma extends_lift {A} E (x : option A) : extends E 0 (lift x).
Proof.
  intros tr. exists []. unfold lift. cbn [snd]. rewrite app_nil_r.
  repeat split; [simpl; lia | constructor].
Qed.

Lemma extends_bind {A B} E n k (m : M A) (f : A -> M B) :
  extends E n m -> (forall a, extends E k (f a)) -> extends E (n + k) (bind m f).
Proof.
  intros Hm Hf tr. destruct (Hm tr) as (e1 & H1 & Hl1 & Ha1). unfold bind.
  destruct (m tr) as [[a|] tr1]; simpl in H1; subst tr1.
  - destruct (Hf a (tr ++ e1)) as (e2 & H2 & Hl2 & Ha2).
    exists (e1 ++ e2). rewrite H2, <- app_assoc. split; [reflexivity|].
    split; [rewrite length_app; lia | apply Forall_app; auto].
  - exists e1. simpl. split; [reflexivity|]. split; [lia | exact Ha1].
Qed.

Lemma extends_fetchJson E u : extends E 1 (fetchJson E u).
Proof.
  intros tr. unfold fetchJson.
  destruct (URL_host E u) as [h|] eqn:Hh.
  - destruct (mem h ALLOWED_HOSTS) eqn:Hm; cbn [negb snd].
    + exists [u]. split; [reflexivity|]. split; [simpl; lia|].
      constructor; [|constructor]. exists h. split; [exact Hh|].
      apply mem_In. exact Hm.
    + exists []. rewrite app_nil_r. repeat split; [simpl; lia | constructor].
  - exists []. simpl. rewrite app_nil_r. repeat split; [lia | constructor].
Qed.

Lemma extends_placeToUniverseId E pid : extends E 1 (placeToUniverseId E pid).
Proof.
  unfold placeToUniverseId. change 1%nat with (1 + 0)%nat.
  apply extends_bind; [apply extends_fetchJson | intros a; apply extends_lift].
Qed.

Lemma extends_resolve_all E pids : forall um,
  extends E (length pids) (resolve_all E pids um).
Proof.
  induction pids as [|pid rest IH]; intros um; cbn [resolve_all length].
  - apply extends_ret.
  - change (S (length rest)) with (1 + length rest)%nat.
    apply extends_bind; [apply extends_placeToUniverseId | intros a; apply IH].
Qed.

Lemma extends_aggregate E pids : extends E (length pids + 2) (aggregate E pids).
Proof.
  unfold aggregate. apply extends_bind; [apply extends_resolve_all|].
  intros um. change 2%nat with (1 + (1 + (0 + (0 + 0))))%nat.
  apply extends_bind; [apply extends_fetchJson|]. intros infoData.
  apply extends_bind; [apply extends_fetchJson|]. intros iconData.
  apply extends_bind; [apply extends_lift|]. intros gameInfo.
  apply extends_bind; [apply extends_lift|]. intros gameIcons.
  destruct (join_loop _ _ _ _ _ _). apply extends_ret.
Qed.

(** X5. Whatever the request and whatever the upstream answers, the handler
    hands [fetch] at most 22 URLs, and each of them has one of the three
    allowed hosts. *)
Theorem outbound_calls_bounded_and_allowed E req now rs :
  (length (calls (gamesData E req now rs)) <= 22)%nat /\
  Forall (allowed_call E) (calls (gamesData E req now rs)).
Proof.
  unfold gamesData.
  destruct (String.eqb (method req) "OPTIONS"); [simpl; split; [lia | constructor]|].
  destruct (negb (String.eqb (method req) "GET")); [simpl; split; [lia | constructor]|].
  destruct (rateLimit (getClientIp req) 30 60 now rs) as [[|] rs'];
    cbn [negb]; [|simpl; split; [lia | constructor]].
  destruct (URL_searchParam_ids E (url req) _) as [ids|];
    [|simpl; split; [lia | constructor]].
  pose proof (retained_at_most_20 (default "" ids)) as H20.
  destruct (validatePlaceIds (default "" ids)) as [|p ps] eqn:Hids;
    [simpl; split; [lia | constructor]|].
  destruct (extends_aggregate E (p :: ps) []) as (extra & Htr & Hlen & Hall).
  destruct (aggregate E (p :: ps) []) as [[r|] tr]; cbn [calls snd app] in *;
    subst tr; split; try exact Hall; lia.
Qed.

Lemma aggregate_status E pids tr r tr' :
  aggregate E pids tr = (Ok r, tr') -> status r = 200.
Proof.
  intros H. destruct (aggregate_inv _ _ _ _ _ H)
    as (? & ? & ? & ? & ? & ? & ? & _ & _ & _ & _ & _ & ->).
  reflexivity.
Qed.

(** X6. The handler never returns without answering; it throws only for a
    GET request whose URL does not parse; its answers
    carry one of the statuses 200, 204, 400, 405, 429, 500; outbound calls
    are made only by requests answered 200 or 500; and a request that is not
    a GET leaves the limiter as it was. *)
Theorem gamesData_outcomes E req now rs :
  result (gamesData E req now rs) <> Silent /\
  (result (gamesData E req now rs) = Rejected ->
     method req = "GET" /\
     URL_searchParam_ids E (url req)
       ("https://" +:+ default "localhost" (nonempty_header (h_host req))) = None) /\
  (forall r, result (gamesData E req now rs) = Responded r ->
     In (status r) [200; 204; 400; 405; 429; 500] /\
     (calls (gamesData E req now rs) <> [] -> status r = 200 \/ status r = 500)) /\
  (method req <> "GET" ->
     rateState_after (gamesData E req now rs) = rs /\
     calls (gamesData E req now rs) = []).
Proof.
  unfold gamesData.
  destruct (String.eqb (method req) "OPTIONS") eqn:Hopt.
  { cbn. split; [discriminate|]. split; [discriminate|]. split.
    - intros r [= <-]. cbn. split; [tauto | congruence].
    - intros _. split; reflexivity. }
  destruct (String.eqb (method req) "GET") eqn:Hget; cbn [negb].
  2:{ cbn. split; [discriminate|]. split; [discriminate|]. split.
      - intros r [= <-]. cbn. split; [tauto | congruence].
      - intros _. split; reflexivity. }
  apply String.eqb_eq in Hget.
  destruct (rateLimit (getClientIp req) 30 60 now rs) as [[|] rs']; cbn [negb].
  2:{ cbn. split; [discriminate|]. split; [discriminate|]. split.
      - intros r [= <-]. cbn. split; [tauto | congruence].
      - congruence. }
  destruct (URL_searchParam_ids E (url req) _) as [ids|] eqn:Hids.
  2:{ cbn. split; [discriminate|]. split; [auto|]. split; [discriminate | congruence]. }
  destruct (validatePlaceIds (default "" ids)) as [|p ps].
  { cbn. split; [discriminate|]. split; [discriminate|]. split.
    - intros r [= <-]. cbn. split; [tauto | congruence].
    - congruence. }
  destruct (aggregate E (p :: ps) []) as [[r0|] tr] eqn:Hagg; cbn;
    (split; [discriminate|]); (split; [discriminate|]); (split; [|congruence]).
  - intros r [= <-]. rewrite (aggregate_status _ _ _ _ _ Hagg).
    split; [tauto | intros _; left; reflexivity].
  - intros r [= <-]. cbn. split; [tauto | intros _; right; reflexivity].
Qed.

Lemma gamesData_outcomes_witness :
  method Sample.req = "GET" /\
  exists r, result (gamesData Sample.E Sample.req 5000 ∅) = Responded r /\
            In (status r) [200; 204; 400; 405; 429; 500].
Proof.
  split; [reflexivity|].
  assert (Hres : result (gamesData Sample.E Sample.req 5000 ∅)
                 = Responded
                     match result (gamesData Sample.E Sample.req 5000 ∅) with
                     | Responded r => r
                     | _ => error_response 0 "" None
                     end) by (vm_compute; reflexivity).
  eexists. split; [exact Hres|].
  exact (proj1 (proj1 (proj2 (proj2 (gamesData_outcomes Sample.E Sample.req 5000 ∅)))
                 _ Hres)).
Defined.

(** ** The metadata map *)

(** X7. The loop that builds the metadata map ends with an exception exactly
    when some element of the metadata body has an [id] that has no string
    (an object with a [toString] property of its own, alone or inside an
    array). Otherwise the map holds, under a key, the name and visit count
    ([null] when absent) of the last element whose [id] reads that key; a key
    that no element gives is absent, and so is [__proto__] whatever the
    body. *)
Theorem gameInfo_last_entry_wins E infoData :
  (gameInfo_of E infoData = None <->
   exists g, In g (entries infoData) /\ unconvertible E "id" g = true) /\
  (forall gi, gameInfo_of E infoData = Some gi ->
     gi !! "__proto__" = None /\
     forall k, k <> "__proto__" ->
       gi !! k = match metadata_for E infoData k with
                 | Some g => Some (field g "name", field g "visits")
                 | None => None
                 end).
Proof.
  split.
  - unfold gameInfo_of. rewrite data_array_entries.
    apply (proj1 (gameInfo_loop_spec E (entries infoData) ∅)).
  - intros gi Hgi. split.
    + unfold gameInfo_of in Hgi. rewrite data_array_entries in Hgi.
      destruct (proj2 (gameInfo_loop_spec E (entries infoData) ∅) gi Hgi) as [Hp _].
      rewrite Hp. apply lookup_empty.
    + intros k Hk. apply gameInfo_of_lookup; assumption.
Qed.

Lemma gameInfo_last_entry_wins_witness :
  (exists gi, gameInfo_of Sample.E More.two_entries = Some gi /\
              gi !! "7" = Some (VStr "new", VNum (Finite 2))) /\
  gameInfo_of Sample.E More.unreadable_id = None.
Proof.
  split.
  - destruct (gameInfo_of Sample.E More.two_entries) as [gi|] eqn:Hgi;
      [|vm_compute in Hgi; discriminate Hgi].
    exists gi. split; [reflexivity|].
    rewrite (proj2 (proj2 (gameInfo_last_entry_wins Sample.E More.two_entries) gi Hgi)
               "7") by discriminate.
    reflexivity.
  - apply (proj1 (gameInfo_last_entry_wins Sample.E More.unreadable_id)).
    exists (VObj [("id", VObj [("toString", VNum (Finite 1))])]).
    split; [left; reflexivity | reflexivity].
Defined.

(** ** The allow-list and the secret *)

Lemma trim_all_space s : all_space s = true -> trim s = EmptyString.
Proof.
  unfold trim. induction s as [|c r IH]; simpl; [reflexivity|].
  intros H. apply andb_true_iff in H as [Hc Hr]. rewrite Hc. apply IH. exact Hr.
Qed.

Lemma split_blank s :
  blank_list s = true ->
  Forall (fun p => all_space p = true) (split "," s).
Proof.
  induction s as [|c r IH]; simpl.
  - intros _. repeat constructor.
  - intros H. apply andb_true_iff in H as [Hc Hr]. specialize (IH Hr).
    destruct (Ascii.eqb c ",") eqn:Hcomma.
    + constructor; [reflexivity | exact IH].
    + rewrite orb_false_r in Hc.
      destruct (split "," r) as [|p ps]; inversion IH; subst;
        constructor; simpl; try rewrite Hc; auto.
Qed.

Lemma parseAllowlist_blank env :
  blank_list (default "" (ADMIN_ALLOWLIST env)) = true -> parseAllowlist env = [].
Proof.
  intros H. unfold parseAllowlist.
  pose proof (split_blank _ H) as Hall.
  induction Hall as [|p ps Hp _ IH]; simpl; [reflexivity|].
  rewrite (trim_all_space p Hp). exact IH.
Qed.

Lemma isIpAllowed_iff env req :
  isIpAllowed env req = true <->
  parseAllowlist env <> [] /\
  (In (getClientIp req) (parseAllowlist env) \/
   In "::1" (parseAllowlist env) \/ In "127.0.0.1" (parseAllowlist env)).
Proof.
  unfold isIpAllowed. destruct (parseAllowlist env) as [|a l] eqn:Hal.
  - split; [discriminate | intros [H _]; congruence].
  - rewrite !orb_true_iff, !mem_In. split.
    + intros H. split; [discriminate | tauto].
    + intros [_ H]. tauto.
Qed.

(** X8. Fail closed: when [ADMIN_ALLOWLIST] is unset, empty, or holds nothing
    but commas and white space, no caller is allowed: [isIpAllowed] is false,
    [requireAdmin] fails with reason [ip], the login page and the logout
    handler answer 404, and so does the login handler whatever the
    credentials. *)
Theorem empty_allowlist_admits_nobody E P env lenv req s now_ms :
  blank_list (default "" (ADMIN_ALLOWLIST env)) = true ->
  isIpAllowed env req = false /\
  requireAdmin E env req = Ok (AuthFail "ip") /\
  login E P env lenv req s now_ms = Done (json res_new 404 not_found_body []) /\
  logout P env req = json res_new 404 not_found_body [] /\
  exists r, page_login env req = Responded r /\ status r = 404.
Proof.
  intros Hblank.
  assert (Hip : isIpAllowed env req = false).
  { unfold isIpAllowed. rewrite (parseAllowlist_blank env Hblank). reflexivity. }
  unfold requireAdmin, login, logout, page_login. rewrite Hip. cbn [negb].
  repeat split. eexists. split; reflexivity.
Qed.

Lemma empty_allowlist_admits_nobody_witness :
  let env := {| ADMIN_ALLOWLIST := Some " , ,"; ADMIN_JWT_SECRET := Some "0123456789abcdef" |} in
  requireAdmin Sample.E env (Sample.admin_req "GET" "127.0.0.1" None)
  = Ok (AuthFail "ip").
Proof.
  intros env.
  exact (proj1 (proj2 (empty_allowlist_admits_nobody Sample.E More.P env More.lenv
                         (Sample.admin_req "GET" "127.0.0.1" None)
                         More.credentials 0 eq_refl))).
Defined.

(** X9. When the allow-list names neither [::1] nor [127.0.0.1],
    [isIpAllowed] is exactly membership of the caller's address in the list
    (its entries compared after trimming, as whole strings). *)
Theorem isIpAllowed_is_membership env req :
  ~ In "::1" (parseAllowlist env) ->
  ~ In "127.0.0.1" (parseAllowlist env) ->
  (isIpAllowed env req = true <-> In (getClientIp req) (parseAllowlist env)).
Proof.
  intros H1 H2. rewrite isIpAllowed_iff. split.
  - intros [_ [H | [H | H]]]; [exact H | contradiction | contradiction].
  - intros H. split; [|left; exact H].
    intros Heq. rewrite Heq in H. exact H.
Qed.

Lemma isIpAllowed_is_membership_witness :
  isIpAllowed Sample.penv_strict (Sample.admin_req "GET" "6.6.6.6" None) = false /\
  isIpAllowed Sample.penv_strict (Sample.admin_req "GET" "154.238.160.118" None) = true.
Proof.
  assert (H1 : ~ In "::1" (parseAllowlist Sample.penv_strict))
    by (vm_compute; intros [H|[]]; discriminate H).
  assert (H2 : ~ In "127.0.0.1" (parseAllowlist Sample.penv_strict))
    by (vm_compute; intros [H|[]]; discriminate H).
  split.
  - destruct (isIpAllowed Sample.penv_strict (Sample.admin_req "GET" "6.6.6.6" None))
      eqn:Hip; [|reflexivity].
    apply (isIpAllowed_is_membership _ _ H1 H2) in Hip.
    vm_compute in Hip. destruct Hip as [H|[]]. discriminate H.
  - apply (isIpAllowed_is_membership _ _ H1 H2). vm_compute. tauto.
Defined.

(** X10. When [ADMIN_JWT_SECRET] is unset or shorter than 16 characters,
    nobody is admitted and nobody can log in: [requireAdmin] never succeeds,
    [issueAdminToken] throws, and the login handler never answers 200. *)
Theorem weak_secret_disables_admin E P env lenv req s now_ms :
  (forall secret, ADMIN_JWT_SECRET env = Some secret ->
                  (String.length secret < 16)%nat) ->
  (forall payload csrf, requireAdmin E env req <> Ok (AuthOk payload csrf)) /\
  (forall username userId, issueAdminToken P env username userId now_ms = None) /\
  (forall r, login E P env lenv req s now_ms = Done r -> statusCode r <> 200).
Proof.
  intros Hweak.
  assert (Hsec : getJwtSecret env = None).
  { unfold getJwtSecret. destruct (ADMIN_JWT_SECRET env) as [secret|]; [|reflexivity].
    specialize (Hweak secret eq_refl). apply Nat.ltb_lt in Hweak.
    rewrite Hweak, orb_true_r. reflexivity. }
  assert (Htok : forall username userId,
             issueAdminToken P env username userId now_ms = None).
  { intros. unfold issueAdminToken. rewrite Hsec. reflexivity. }
  split; [|split; [exact Htok|]].
  - intros payload csrf. unfold requireAdmin.
    destruct (isIpAllowed env req); cbn [negb]; [|discriminate].
    rewrite Hsec. discriminate.
  - intros r. unfold login.
    destruct (isIpAllowed env req); cbn [negb]; [|intros [= <-]; discriminate].
    destruct (String.eqb (method req) "POST"); cbn [negb];
      [|intros [= <-]; discriminate].
    destruct (readJsonBody P s 200000) as [body|m]; [|intros [= <-]; discriminate].
    destruct body; try discriminate;
      (destruct (string_or_empty E (get_prop _ "username")) as [u|];
       [|discriminate]);
      (destruct (string_or_empty E (get_prop _ "password")) as [password|];
       [|discriminate]);
      cbv zeta; rewrite Htok;
      repeat match goal with
             | |- context [if ?c then _ else _] => destruct c
             end; intros [= <-]; discriminate.
Qed.

Lemma weak_secret_disables_admin_witness :
  let env := {| ADMIN_ALLOWLIST := Some "10.1.1.1"; ADMIN_JWT_SECRET := Some "short" |} in
  issueAdminToken More.P env "admin" 1 0 = None /\
  login Sample.E More.P env More.lenv (More.post_login "10.1.1.1") More.credentials 0
  = Done (json res_new 500 (err_body "Failed to login") []).
Proof.
  intros env. split; [|vm_compute; reflexivity].
  refine (proj1 (proj2 (weak_secret_disables_admin Sample.E More.P env More.lenv
                          (More.post_login "10.1.1.1") More.credentials 0 _))
            "admin" 1).
  intros secret [= <-]. vm_compute. lia.
Defined.

(** X11. [requireAdmin] succeeds only when the allow-list lets the caller
    through, a secret of at least 16 characters is configured, the cookie
    header parses, the [yd_admin] cookie is present and not empty, and
    [jwtVerify] accepts it under that secret; the payload it returns is the
    one [jwtVerify] gave and the CSRF value is the non-empty [yd_csrf]
    cookie, if any. *)
Theorem requireAdmin_sound E env req payload csrf :
  requireAdmin E env req = Ok (AuthOk payload csrf) ->
  isIpAllowed env req = true /\
  exists secret cookies token,
    ADMIN_JWT_SECRET env = Some secret /\ (16 <= String.length secret)%nat /\
    parseCookies E req = Ok cookies /\
    cookies !! "yd_admin" = Some token /\ token <> EmptyString /\
    jwtVerify E token secret = Some payload /\
    csrf = nonempty_header (cookies !! "yd_csrf").
Proof.
  unfold requireAdmin.
  destruct (isIpAllowed env req) eqn:Hip; [|discriminate]. cbn [negb].
  destruct (getJwtSecret env) as [secret|] eqn:Hsec; [|discriminate].
  destruct (parseCookies E req) as [cookies|] eqn:Hck; [|discriminate].
  destruct (cookies !! COOKIE_NAME) as [token|] eqn:Htok; [|discriminate].
  cbn [nonempty_header].
  destruct (str_truthy token) eqn:Hne; [|discriminate].
  destruct (jwtVerify E token secret) as [p|] eqn:Hjwt; [|discriminate].
  intros [= <- <-]. split; [reflexivity|].
  exists secret, cookies, token.
  unfold getJwtSecret in Hsec.
  destruct (ADMIN_JWT_SECRET env) as [s0|]; [|discriminate].
  destruct (negb (str_truthy s0) || (String.length s0 <? 16)%nat) eqn:Hweak;
    [discriminate|].
  injection Hsec as ->. apply orb_false_iff in Hweak as [_ Hlen].
  apply Nat.ltb_ge in Hlen.
  repeat split; try assumption; try reflexivity.
  intros ->. discriminate.
Qed.

Lemma requireAdmin_sound_witness :
  let req := Sample.admin_req "GET" "154.238.160.118" None in
  requireAdmin Sample.E Sample.penv_strict req
  = Ok (AuthOk (VObj [("username", VStr "admin")]) (Some "abc")) /\
  isIpAllowed Sample.penv_strict req = true.
Proof.
  intros req.
  assert (H : requireAdmin Sample.E Sample.penv_strict req
              = Ok (AuthOk (VObj [("username", VStr "admin")]) (Some "abc")))
    by (vm_compute; reflexivity).
  split; [exact H|].
  exact (proj1 (requireAdmin_sound _ _ _ _ _ H)).
Defined.

(** ** The gate of the admin handlers *)

(** X12. The pricing and reviews admin handlers reach their database code
    only for a request that [requireAdmin] accepts, and for a POST, PUT,
    DELETE or PATCH only when the [x-csrf-token] header is not empty and
    equals the [yd_csrf] cookie. *)
Theorem admin_crud_gate_sound E env req :
  admin_crud_gate E env req = None ->
  exists payload csrf,
    requireAdmin E env req = Ok (AuthOk payload csrf) /\
    (In (method req) ["POST"; "PUT"; "DELETE"; "PATCH"] ->
     exists t, t <> EmptyString /\ h_x_csrf_token req = Some t /\ csrf = Some t).
Proof.
  unfold admin_crud_gate, requireAdminOr404.
  destruct (requireAdmin E env req) as [[reason|payload csrf]|]; try discriminate.
  destruct (isWrite (method req)) eqn:Hw; cbn [andb].
  - destruct (h_x_csrf_token req) as [h|] eqn:Hh; cbn [nonempty_header];
      [|discriminate].
    destruct (str_truthy h) eqn:Hne; [|discriminate].
    destruct csrf as [c|]; [|discriminate].
    destruct (String.eqb h c) eqn:Heq; [|discriminate].
    apply String.eqb_eq in Heq. subst c. intros _.
    exists payload, (Some h). split; [reflexivity|]. intros _.
    exists h. repeat split. intros ->. discriminate.
  - intros _. exists payload, csrf. split; [reflexivity|].
    intros Hm. exfalso. simpl in Hm.
    destruct Hm as [Hm|[Hm|[Hm|[Hm|[]]]]]; rewrite <- Hm in Hw; discriminate Hw.
Qed.

Lemma admin_crud_gate_sound_witness :
  let req := Sample.admin_req "POST" "154.238.160.118" (Some "abc") in
  admin_crud_gate Sample.E Sample.penv_strict req = None /\
  exists payload csrf, requireAdmin Sample.E Sample.penv_strict req
                       = Ok (AuthOk payload csrf).
Proof.
  intros req.
  assert (H : admin_crud_gate Sample.E Sample.penv_strict req = None)
    by (vm_compute; reflexivity).
  split; [exact H|].
  destruct (admin_crud_gate_sound _ _ _ H) as (payload & csrf & Hauth & _).
  exists payload, csrf. exact Hauth.
Defined.

(** X13. The gate ends a request in one of three ways only: by throwing (the
    cookie header does not decode), by returning without any response (the
    session check failed), or with 403 "Invalid CSRF token"; the 404 the
    handlers hold for a gate that is not [ended] is never sent. *)
Theorem admin_crud_gate_outcomes E env req e :
  admin_crud_gate E env req = Some e ->
  (e = Rejected /\ requireAdmin E env req = Thrown) \/
  (e = Silent /\ exists reason, requireAdmin E env req = Ok (AuthFail reason)) \/
  (e = Responded (error_response 403 "Invalid CSRF token" None) /\
   exists payload csrf, requireAdmin E env req = Ok (AuthOk payload csrf)).
Proof.
  unfold admin_crud_gate, requireAdminOr404.
  destruct (requireAdmin E env req) as [[reason|payload csrf]|].
  - intros [= <-]. right. left. eauto.
  - destruct (isWrite (method req)
              && negb match nonempty_header (h_x_csrf_token req), csrf with
                      | Some h, Some c => String.eqb h c
                      | _, _ => false
                      end); cbn; [|discriminate].
    intros [= <-]. right. right. eauto.
  - intros [= <-]. left. auto.
Qed.

Lemma admin_crud_gate_outcomes_witness :
  admin_crud_gate Sample.E Sample.penv_strict (Sample.admin_req "GET" "6.6.6.6" None)
  = Some Silent /\
  requireAdmin Sample.E Sample.penv_strict (Sample.admin_req "GET" "6.6.6.6" None)
  = Ok (AuthFail "ip").
Proof.
  assert (H : admin_crud_gate Sample.E Sample.penv_strict
                (Sample.admin_req "GET" "6.6.6.6" None) = Some Silent)
    by (vm_compute; reflexivity).
  split; [exact H|].
  destruct (admin_crud_gate_outcomes _ _ _ _ H)
    as [[He _] | [[_ [reason Hr]] | [He _]]]; try discriminate He.
  rewrite Hr. vm_compute in Hr. injection Hr as <-. reflexivity.
Defined.

(** ** parseCookies *)

Lemma split_not_nil sep s : split sep s <> [].
Proof.
  destruct s as [|c r]; simpl; [discriminate|].
  destruct (Ascii.eqb c sep); [discriminate|].
  destruct (split sep r); discriminate.
Qed.

(** [join] undoes [split]. *)
Lemma join_split sep s : join (String sep EmptyString) (split sep s) = s.
Proof.
  induction s as [|c r IH]; [reflexivity|]. cbn [split].
  pose proof (split_not_nil sep r) as Hne.
  destruct (Ascii.eqb c sep) eqn:Hc.
  - apply Ascii.eqb_eq in Hc. subst c.
    destruct (split sep r) as [|q qs]; [congruence|].
    change (join (String sep "") ("" :: q :: qs))
      with (String sep (join (String sep "") (q :: qs))).
    rewrite IH. reflexivity.
  - destruct (split sep r) as [|q qs]; [congruence|].
    destruct qs as [|q' qs'].
    + simpl in *. rewrite IH. reflexivity.
    + change (join (String sep "") (String c q :: q' :: qs'))
        with (String c (join (String sep "") (q :: q' :: qs'))).
      rewrite IH. reflexivity.
Qed.

Lemma split_eq_parts s :
  exists rest, split "=" s = before_eq s :: rest /\ join "=" rest = after_eq s.
Proof.
  induction s as [|c r IH]; [exists []; split; reflexivity|].
  cbn [split before_eq after_eq]. destruct (Ascii.eqb c "=") eqn:Hc.
  - exists (split "=" r). split; [reflexivity | apply join_split].
  - destruct IH as (rest & Hsplit & Hjoin). rewrite Hsplit.
    exists rest. split; [reflexivity | exact Hjoin].
Qed.

Lemma parseCookies_step_spec E out part :
  parseCookies_step E (Ok out) part
  = if negb (str_truthy (before_eq (trim part))) then Ok out
    else match decodeURIComponent E (after_eq (trim part)) with
         | None => Thrown
         | Some v =>
             if String.eqb (before_eq (trim part)) "__proto__" then Ok out
             else Ok (<[before_eq (trim part) := v]> out)
         end.
Proof.
  unfold parseCookies_step.
  destruct (split_eq_parts (trim part)) as (rest & -> & ->). reflexivity.
Qed.

Lemma parseCookies_fold_thrown E parts :
  foldl (parseCookies_step E) Thrown parts = Thrown.
Proof. induction parts as [|p ps IH]; [reflexivity | exact IH]. Qed.

Lemma parseCookies_fold_throws E parts : forall out,
  foldl (parseCookies_step E) (Ok out) parts = Thrown <->
  exists part, In part parts /\ before_eq (trim part) <> EmptyString /\
               decodeURIComponent E (after_eq (trim part)) = None.
Proof.
  induction parts as [|p ps IH]; intros out.
  - simpl. split; [discriminate | intros [? [[] _]]].
  - cbn [foldl]. rewrite parseCookies_step_spec.
    destruct (str_truthy (before_eq (trim p))) eqn:Hk; cbn [negb].
    + destruct (decodeURIComponent E (after_eq (trim p))) as [v|] eqn:Hd.
      * assert (Hiff : (exists part, In part (p :: ps) /\
                          before_eq (trim part) <> EmptyString /\
                          decodeURIComponent E (after_eq (trim part)) = None)
                       <-> (exists part, In part ps /\
                              before_eq (trim part) <> EmptyString /\
                              decodeURIComponent E (after_eq (trim part)) = None)).
        { split.
          - intros (part & [<- | Hin] & Hne & Hnone); [congruence|].
            exists part. auto.
          - intros (part & Hin & H). exists part. split; [right; exact Hin | exact H]. }
        rewrite Hiff. destruct (String.eqb _ "__proto__"); apply IH.
      * rewrite parseCookies_fold_thrown. split; [intros _ | reflexivity].
        exists p. split; [left; reflexivity|]. split; [|exact Hd].
        intros Heq. rewrite Heq in Hk. discriminate.
    + rewrite IH. split.
      * intros (part & Hin & H). exists part. split; [right; exact Hin | exact H].
      * intros (part & [<- | Hin] & Hne & Hnone).
        -- destruct (before_eq (trim p)); [congruence | discriminate].
        -- exists part. auto.
Qed.

Lemma parseCookies_fold_other E k parts : forall out cookies,
  foldl (parseCookies_step E) (Ok out) parts = Ok cookies ->
  (forall p, In p parts -> before_eq (trim p) <> k) ->
  cookies !! k = out !! k.
Proof.
  induction parts as [|p ps IH]; intros out cookies Hrun Hno.
  - injection Hrun as <-. reflexivity.
  - cbn [foldl] in Hrun. rewrite parseCookies_step_spec in Hrun.
    assert (Hp : before_eq (trim p) <> k) by (apply Hno; left; reflexivity).
    assert (Hps : forall q, In q ps -> before_eq (trim q) <> k)
      by (intros q Hq; apply Hno; right; exact Hq).
    destruct (negb (str_truthy (before_eq (trim p)))); [exact (IH _ _ Hrun Hps)|].
    destruct (decodeURIComponent E (after_eq (trim p))) as [v|].
    + destruct (String.eqb _ "__proto__"); [exact (IH _ _ Hrun Hps)|].
      rewrite (IH _ _ Hrun Hps). apply lookup_insert_ne. exact Hp.
    + rewrite parseCookies_fold_thrown in Hrun. discriminate.
Qed.

(** X14. [parseCookies] throws exactly when some [;]-separated part of the
    cookie header has a non-empty name and a value (the text after its first
    [=]) that [decodeURIComponent] rejects; for a caller the allow-list lets
    through, with a secret configured, [requireAdmin] then throws as well,
    whatever the other cookies are. *)
Theorem parseCookies_throws_iff E env req :
  (parseCookies E req = Thrown <->
   exists part, In part (split ";" (default "" (h_cookie req))) /\
                before_eq (trim part) <> EmptyString /\
                decodeURIComponent E (after_eq (trim part)) = None) /\
  (parseCookies E req = Thrown -> isIpAllowed env req = true ->
   getJwtSecret env <> None -> requireAdmin E env req = Thrown).
Proof.
  split.
  - unfold parseCookies.
    replace (default "" (nonempty_header (h_cookie req)))
      with (default "" (h_cookie req))
      by (destruct (h_cookie req) as [[|]|]; reflexivity).
    apply parseCookies_fold_throws.
  - intros Hthrow Hip Hsec. unfold requireAdmin. rewrite Hip. cbn [negb].
    destruct (getJwtSecret env); [|congruence]. rewrite Hthrow. reflexivity.
Qed.

(** X15. When the cookie header parses, the value stored under a name (other
    than [__proto__]) is the decoding of the text after the first [=] of the
    last part carrying that name, further [=] signs included. *)
Theorem parseCookies_last_value E req cookies pre part post v :
  parseCookies E req = Ok cookies ->
  split ";" (default "" (h_cookie req)) = pre ++ part :: post ->
  before_eq (trim part) <> EmptyString ->
  before_eq (trim part) <> "__proto__" ->
  decodeURIComponent E (after_eq (trim part)) = Some v ->
  (forall p, In p post -> before_eq (trim p) <> before_eq (trim part)) ->
  cookies !! before_eq (trim part) = Some v.
Proof.
  unfold parseCookies.
  replace (default "" (nonempty_header (h_cookie req)))
    with (default "" (h_cookie req))
    by (destruct (h_cookie req) as [[|]|]; reflexivity).
  intros Hrun Hsplit Hne Hproto Hdec Hpost. rewrite Hsplit in Hrun.
  rewrite foldl_app in Hrun. cbn [foldl] in Hrun.
  destruct (foldl (parseCookies_step E) (Ok ∅) pre) as [acc|].
  - rewrite parseCookies_step_spec in Hrun.
    destruct (before_eq (trim part)) as [|c k] eqn:Hk; [congruence|].
    cbn [str_truthy negb] in Hrun. rewrite Hdec in Hrun.
    apply String.eqb_neq in Hproto. rewrite Hproto in Hrun.
    rewrite (parseCookies_fold_other E _ _ _ _ Hrun Hpost).
    apply lookup_insert_eq.
  - cbn [parseCookies_step] in Hrun. rewrite parseCookies_fold_thrown in Hrun.
    discriminate.
Qed.

Lemma parseCookies_last_value_witness :
  exists cookies,
    parseCookies Sample.E
      (Sample.admin_req "GET" "10.1.1.1" None) = Ok cookies /\
    cookies !! "yd_csrf" = Some "abc".
Proof.
  eexists. split; [vm_compute; reflexivity|].
  apply (parseCookies_last_value Sample.E (Sample.admin_req "GET" "10.1.1.1" None)
           _ ["yd_admin=signed"] " yd_csrf=abc" [] "abc");
    [vm_compute; reflexivity | reflexivity | discriminate | discriminate
    | reflexivity | intros p []].
Defined.

Lemma parseCookies_throws_iff_witness :
  parseCookies More.E_pct More.bad_cookie_req = Thrown /\
  requireAdmin More.E_pct Sample.penv_strict More.bad_cookie_req = Thrown.
Proof.
  assert (H : parseCookies More.E_pct More.bad_cookie_req = Thrown).
  { apply (proj1 (parseCookies_throws_iff More.E_pct Sample.penv_strict
                    More.bad_cookie_req)).
    exists " theme=%". split; [vm_compute; tauto|]. split; [discriminate | reflexivity]. }
  split; [exact H|].
  apply (proj2 (parseCookies_throws_iff More.E_pct Sample.penv_strict
                  More.bad_cookie_req) H); [reflexivity | discriminate].
Defined.

(** ** readJsonBody *)

Lemma append_assoc_str a b c : (a +:+ b) +:+ c = a +:+ (b +:+ c).
Proof.
  induction a as [|x a IH]; [reflexivity|].
  change (String x ((a +:+ b) +:+ c) = String x (a +:+ (b +:+ c))).
  f_equal. exact IH.
Qed.

Lemma total_length_nonneg ds : 0 <= total_length ds.
Proof. induction ds as [|d ds IH]; simpl; lia. Qed.

Lemma append_nil_r_str a : a +:+ EmptyString = a.
Proof.
  induction a as [|x a IH]; [reflexivity|].
  change (String x (a +:+ EmptyString) = String x a). f_equal. exact IH.
Qed.

Lemma read_data_spec P limit ds : forall size text,
  size <= limit ->
  read_data P limit size text ds
  = if limit <? size + total_length ds then None
    else Some (text +:+ decoded_text P ds).
Proof.
  induction ds as [|d rest IH]; intros size text Hsize.
  - simpl. rewrite Z.add_0_r, append_nil_r_str.
    replace (limit <? size) with false by (symmetry; apply Z.ltb_ge; lia).
    reflexivity.
  - cbn [read_data total_length decoded_text foldr].
    fold (total_length rest). fold (decoded_text P rest).
    pose proof (total_length_nonneg rest) as Hnn.
    destruct (limit <? size + Z.of_nat (length d)) eqn:Hd.
    + apply Z.ltb_lt in Hd.
      replace (limit <? size + (Z.of_nat (length d) + total_length rest))
        with true by (symmetry; apply Z.ltb_lt; lia).
      reflexivity.
    + apply Z.ltb_ge in Hd. rewrite IH by exact Hd.
      rewrite Z.add_assoc, append_assoc_str. reflexivity.
Qed.

Lemma string_of_list_byte_app a b :
  String.string_of_list_byte (a ++ b)
  = String.string_of_list_byte a +:+ String.string_of_list_byte b.
Proof.
  induction a as [|x a IH]; [reflexivity|].
  change (String.string_of_list_byte ((x :: a) ++ b))
    with (String (ascii_of_byte x) (String.string_of_list_byte (a ++ b))).
  change (String.string_of_list_byte (x :: a))
    with (String (ascii_of_byte x) (String.string_of_list_byte a)).
  rewrite IH. reflexivity.
Qed.

Lemma decoded_text_ascii P ds :
  decodes_ascii P ->
  Forall (fun d => forallb is_ascii_byte d = true) ds ->
  decoded_text P ds = String.string_of_list_byte (concat ds).
Proof.
  intros Hdec. induction 1 as [|d rest Hd _ IH]; [reflexivity|].
  cbn [decoded_text foldr concat]. fold (decoded_text P rest).
  rewrite string_of_list_byte_app, (Hdec d Hd), IH. reflexivity.
Qed.

(** X16. For a non-negative limit, [readJsonBody] rejects with "Payload too
    large" exactly the bodies of more than [limitBytes] bytes in all, however
    they are cut into chunks, and without parsing anything. Otherwise a
    stream error is passed on, and at the end of the stream the text is
    parsed: [{}] when it is empty, else its [JSON.parse], or "Invalid JSON".
    That text is the chunks decoded one by one and put together (a character
    whose bytes a chunk boundary separates is not reassembled); for a body of
    ASCII bytes it is the text of the body, whatever the chunks. *)
Theorem readJsonBody_by_size P s limitBytes :
  0 <= limitBytes ->
  readJsonBody P s limitBytes
  = (if limitBytes <? total_length (chunks s) then RejectedWith "Payload too large"
     else match finish s with
          | StreamError m => RejectedWith m
          | StreamEnd =>
              match decoded_text P (chunks s) with
              | EmptyString => Resolved (VObj [])
              | text =>
                  match JSON_parse P text with
                  | Some v => Resolved v
                  | None => RejectedWith "Invalid JSON"
                  end
              end
          end) /\
  (decodes_ascii P ->
   Forall (fun d => forallb is_ascii_byte d = true) (chunks s) ->
   decoded_text P (chunks s) = String.string_of_list_byte (concat (chunks s))).
Proof.
  intros Hlim. split; [|apply decoded_text_ascii].
  unfold readJsonBody. rewrite read_data_spec by exact Hlim.
  rewrite Z.add_0_l.
  change ("" +:+ decoded_text P (chunks s)) with (decoded_text P (chunks s)).
  destruct (limitBytes <? total_length (chunks s)); [reflexivity|].
  destruct (finish s); [|reflexivity].
  destruct (decoded_text P (chunks s)); reflexivity.
Qed.

Lemma readJsonBody_by_size_witness :
  let body := {| chunks := [String.list_byte_of_string "{";
                            String.list_byte_of_string "}"];
                 finish := StreamEnd |} in
  readJsonBody More.P body 200000 = Resolved (VObj []) /\
  readJsonBody More.P body 1 = RejectedWith "Payload too large" /\
  decoded_text More.P (chunks body) = "{}".
Proof.
  intros body. split; [|split].
  - rewrite (proj1 (readJsonBody_by_size More.P body 200000 ltac:(lia))). reflexivity.
  - rewrite (proj1 (readJsonBody_by_size More.P body 1 ltac:(lia))). reflexivity.
  - rewrite (proj2 (readJsonBody_by_size More.P body 1 ltac:(lia))).
    + reflexivity.
    + intros d _. reflexivity.
    + repeat constructor.
Defined.

(** ** login.js and logout.js *)

Ltac login_cases :=
  repeat match goal with
         | |- context [if ?c then _ else _] =>
             let H := fresh "Hc" in destruct c eqn:H
         | |- context [match ?c with Some _ => _ | None => _ end] =>
             let H := fresh "Hc" in destruct c as [[? ?]|] eqn:H
         end.

Ltac login_branch :=
  cbv zeta; login_cases;
  intros Hdone Hst; injection Hdone as <-;
  try (cbn in Hst; discriminate Hst);
  repeat match goal with
         | H : _ || _ = false |- _ => apply orb_false_iff in H as [? ?]
         | H : negb _ = false |- _ => apply negb_false_iff in H
         | H : (if ?c then _ else _) = true |- _ => destruct c eqn:?; [|discriminate H]
         | H : String.eqb _ _ = true |- _ => apply String.eqb_eq in H
         end.

Lemma login_200_inv E P env lenv req s now_ms r :
  login E P env lenv req s now_ms = Done r -> statusCode r = 200 ->
  isIpAllowed env req = true /\ method req = "POST" /\
  exists body u password token csrf,
    readJsonBody P s 200000 = Resolved body /\
    string_or_empty E (get_prop body "username") = Some u /\
    string_or_empty E (get_prop body "password") = Some password /\
    str_truthy password = true /\
    str_truthy (trim u) = true /\
    trim u = default "" (ADMIN_USER lenv) /\
    bcrypt_compare P password (default "" (ADMIN_PASS_HASH lenv)) = true /\
    issueAdminToken P env (trim u) 1 now_ms = Some (token, csrf) /\
    r = json (setCookie P (setCookie P res_new COOKIE_NAME token (session_cookie_opts 3600))
                CSRF_COOKIE csrf (csrf_cookie_opts 3600))
          200 (msg_body "Logged in") [].
Proof.
  unfold login.
  destruct (isIpAllowed env req) eqn:Hip; cbn [negb];
    [|intros [= <-] Hst; discriminate Hst].
  destruct (String.eqb (method req) "POST") eqn:Hpost; cbn [negb];
    [|intros [= <-] Hst; discriminate Hst].
  apply String.eqb_eq in Hpost.
  destruct (readJsonBody P s 200000) as [body|m] eqn:Hread;
    [|intros [= <-] Hst; discriminate Hst].
  destruct body; try discriminate;
    (destruct (string_or_empty E (get_prop _ "username")) as [u|] eqn:Hu;
     [|discriminate]);
    (destruct (string_or_empty E (get_prop _ "password")) as [password|] eqn:Hpw;
     [|discriminate]);
    login_branch;
    (split; [reflexivity|]; split; [exact Hpost|];
     eexists _, u, password, _, _; split; [reflexivity|];
     split; [exact Hu|]; split; [exact Hpw|];
     repeat split; first [eassumption | reflexivity]).
Qed.

(** X17. Every 200 answer of the login handler carries exactly one
    [Set-Cookie] header, the one of the [yd_csrf] cookie: the second
    [setCookie] call replaces the header the first one set, so the [yd_admin]
    session cookie is not in the response. *)
Theorem login_sets_only_csrf_cookie E P env lenv req s now_ms r :
  login E P env lenv req s now_ms = Done r -> statusCode r = 200 ->
  exists username token csrf,
    issueAdminToken P env username 1 now_ms = Some (token, csrf) /\
    sent r = Some (msg_body "Logged in") /\
    headers r
    = <["x-content-type-options" := "nosniff"]>
        (<["content-type" := "application/json; charset=utf-8"]>
           (<["set-cookie" := "yd_csrf=" +:+ encodeURIComponent P csrf
                              +:+ "; Max-Age=3600; Path=/; Secure; SameSite=Strict"]> ∅)).
Proof.
  intros Hdone Hst.
  destruct (login_200_inv _ _ _ _ _ _ _ _ Hdone Hst)
    as (_ & _ & body & u & password & token & csrf
        & _ & _ & _ & _ & _ & _ & _ & Htok & ->).
  eexists _, token, csrf. split; [exact Htok|]. split; [reflexivity|].
  cbn [json setCookie setHeader headers res_new foldl].
  change (lower "Set-Cookie") with "set-cookie".
  change (lower "Content-Type") with "content-type".
  change (lower "X-Content-Type-Options") with "x-content-type-options".
  rewrite insert_insert_eq. reflexivity.
Qed.

Lemma login_sets_only_csrf_cookie_witness :
  exists r,
    login Sample.E More.P Sample.penv_strict More.lenv
      (More.post_login "154.238.160.118") More.credentials 0 = Done r /\
    statusCode r = 200 /\
    getHeader "Set-Cookie" r
    = Some "yd_csrf=c0ffee; Max-Age=3600; Path=/; Secure; SameSite=Strict".
Proof.
  eexists. split; [vm_compute; reflexivity|]. split; [reflexivity|].
  match goal with
  | |- getHeader _ ?r = _ =>
      destruct (login_sets_only_csrf_cookie Sample.E More.P Sample.penv_strict
                  More.lenv (More.post_login "154.238.160.118") More.credentials 0 r)
        as (username & token & csrf & Htok & _ & Hh);
        [vm_compute; reflexivity | reflexivity |]
  end.
  vm_compute. reflexivity.
Defined.

(** X18. The login handler answers 200 only to a POST from an allowed
    address whose body parses, whose [username] and [password] have strings,
    the trimmed [username] being equal to [ADMIN_USER] and the [password]
    one that [bcrypt.compare] accepts against [ADMIN_PASS_HASH]. *)
Theorem login_requires_credentials E P env lenv req s now_ms r :
  login E P env lenv req s now_ms = Done r -> statusCode r = 200 ->
  isIpAllowed env req = true /\ method req = "POST" /\
  exists body u password,
    readJsonBody P s 200000 = Resolved body /\
    string_or_empty E (get_prop body "username") = Some u /\
    string_or_empty E (get_prop body "password") = Some password /\
    trim u = default "" (ADMIN_USER lenv) /\
    default "" (ADMIN_USER lenv) <> EmptyString /\
    bcrypt_compare P password (default "" (ADMIN_PASS_HASH lenv)) = true.
Proof.
  intros Hdone Hst.
  destruct (login_200_inv _ _ _ _ _ _ _ _ Hdone Hst)
    as (Hip & Hpost & body & u & password & token & csrf
        & Hread & Hu & Hpw & _ & Hne & Heq & Hb & _).
  split; [exact Hip|]. split; [exact Hpost|].
  exists body, u, password. split; [exact Hread|]. split; [exact Hu|].
  split; [exact Hpw|]. split; [exact Heq|]. split; [|exact Hb].
  rewrite <- Heq. intros Hempty. rewrite Hempty in Hne. discriminate.
Qed.

Lemma login_requires_credentials_witness :
  exists r,
    login Sample.E More.P Sample.penv_strict More.lenv
      (More.post_login "154.238.160.118") More.credentials 0 = Done r /\
    statusCode r = 200 /\
    method (More.post_login "154.238.160.118") = "POST".
Proof.
  eexists. split; [vm_compute; reflexivity|]. split; [reflexivity|].
  match goal with
  | |- method ?q = _ =>
      refine (proj1 (proj2 (login_requires_credentials Sample.E More.P
                              Sample.penv_strict More.lenv q More.credentials 0 _ _ _)));
        [vm_compute; reflexivity | reflexivity]
  end.
Defined.

(** X19. For an allowed address the logout handler answers 200 with exactly
    one [Set-Cookie] header, the one that clears [yd_csrf]: the header that
    would clear the [yd_admin] session cookie is replaced before the response
    is sent. *)
Theorem logout_clears_only_csrf_cookie P env req :
  isIpAllowed env req = true ->
  statusCode (logout P env req) = 200 /\
  sent (logout P env req) = Some (msg_body "Logged out") /\
  headers (logout P env req)
  = <["x-content-type-options" := "nosniff"]>
      (<["content-type" := "application/json; charset=utf-8"]>
         (<["set-cookie" := "yd_csrf=" +:+ encodeURIComponent P ""
                            +:+ "; Max-Age=0; Path=/; Secure; SameSite=Strict"]> ∅)).
Proof.
  intros Hip. unfold logout. rewrite Hip. cbn [negb].
  split; [reflexivity|]. split; [reflexivity|].
  cbn [json setCookie setHeader headers res_new foldl].
  change (lower "Set-Cookie") with "set-cookie".
  change (lower "Content-Type") with "content-type".
  change (lower "X-Content-Type-Options") with "x-content-type-options".
  rewrite insert_insert_eq. reflexivity.
Qed.

Lemma logout_clears_only_csrf_cookie_witness :
  isIpAllowed Sample.penv_strict (More.post_login "154.238.160.118") = true /\
  getHeader "Set-Cookie"
    (logout More.P Sample.penv_strict (More.post_login "154.238.160.118"))
  = Some "yd_csrf=; Max-Age=0; Path=/; Secure; SameSite=Strict".
Proof.
  assert (Hip : isIpAllowed Sample.penv_strict (More.post_login "154.238.160.118") = true)
    by reflexivity.
  split; [exact Hip|].
  unfold getHeader.
  rewrite (proj2 (proj2 (logout_clears_only_csrf_cookie More.P Sample.penv_strict
                           (More.post_login "154.238.160.118") Hip))).
  vm_compute. reflexivity.
Defined.

(** ** allowCorsSameOrigin *)

(** X20. [allowCorsSameOrigin] never throws and touches nothing but the
    [Access-Control-Allow-Origin] and [Vary] headers; when it sets them, the
    allowed origin is the request's own [Origin] header, and either
    [CORS_ALLOW_ORIGINS] lists that origin, or the list is empty and the host
    of the origin equals the [Host] header. Without an [Origin] header it
    does nothing. *)
Theorem cors_reflects_only_allowed_origin E cors origin req r :
  let r' := allowCorsSameOrigin E cors origin req r in
  statusCode r' = statusCode r /\ sent r' = sent r /\
  (absent origin -> r' = r) /\
  (r' = r \/
   exists o,
     origin = Some o /\ o <> EmptyString /\
     r' = setHeader "Vary" "Origin" (setHeader "Access-Control-Allow-Origin" o r) /\
     let allowList :=
       List.filter str_truthy (map trim (split "," (default "" cors))) in
     ((allowList <> [] /\ In o allowList) \/
      (allowList = [] /\
       exists host, host <> EmptyString /\ h_host req = Some host /\
                    URL_host E o = Some host))).
Proof.
  cbv zeta. unfold allowCorsSameOrigin.
  assert (Hsame : statusCode r = statusCode r /\ sent r = sent r /\
                  (absent origin -> r = r) /\
                  (r = r \/
                   exists o,
                     origin = Some o /\ o <> EmptyString /\
                     r = setHeader "Vary" "Origin"
                           (setHeader "Access-Control-Allow-Origin" o r) /\
                     ((List.filter str_truthy (map trim (split "," (default "" cors))) <> [] /\
                       In o (List.filter str_truthy
                               (map trim (split "," (default "" cors))))) \/
                      (List.filter str_truthy (map trim (split "," (default "" cors))) = [] /\
                       exists host, host <> EmptyString /\ h_host req = Some host /\
                                    URL_host E o = Some host))))
    by (split; [reflexivity|]; split; [reflexivity|];
        split; [intros _; reflexivity | left; reflexivity]).
  destruct origin as [o|]; cbn [nonempty_header]; [|exact Hsame].
  destruct (str_truthy o) eqn:Ho; [|exact Hsame].
  assert (Hne : o <> EmptyString) by (intros ->; discriminate).
  assert (Habs : ~ absent (Some o)).
  { intros [H | H]; [discriminate | injection H as ->; discriminate]. }
  destruct (List.filter str_truthy (map trim (split "," (default "" cors))))
    as [|a l] eqn:Hal.
  - destruct (URL_host E o) as [ohost|] eqn:Hoh; [|exact Hsame].
    destruct (h_host req) as [host|] eqn:Hhost; cbn [nonempty_header];
      [|exact Hsame].
    destruct (str_truthy host) eqn:Hht; [|exact Hsame].
    destruct (String.eqb ohost host) eqn:Heq; [|exact Hsame].
    apply String.eqb_eq in Heq. subst ohost.
    split; [reflexivity|]. split; [reflexivity|]. split; [contradiction|].
    right. exists o. split; [reflexivity|]. split; [exact Hne|].
    split; [reflexivity|]. right. split; [reflexivity|].
    exists host. split; [intros ->; discriminate|]. split; [reflexivity | exact Hoh].
  - destruct (mem o (a :: l)) eqn:Hm; [|exact Hsame].
    apply mem_In in Hm.
    split; [reflexivity|]. split; [reflexivity|]. split; [contradiction|].
    right. exists o. split; [reflexivity|]. split; [exact Hne|].
    split; [reflexivity|]. left. split; [discriminate | exact Hm].
Qed.

(** ** reviews.js: the stored rating *)

Lemma Qle_bool_inject a b : Qle_bool (inject_Z a) (inject_Z b) = (a <=? b).
Proof. unfold Qle_bool, inject_Z. simpl. rewrite !Z.mul_1_r. reflexivity. Qed.

Lemma rating_in_range x :
  Math_max (Num (Finite 1)) (Math_min (Num (Finite 5)) (Math_floor x)) = NaN \/
  exists z, Math_max (Num (Finite 1)) (Math_min (Num (Finite 5)) (Math_floor x))
            = Num (Finite (inject_Z z)) /\ 1 <= z <= 5.
Proof.
  destruct x as [|[q| |]].
  - left. reflexivity.
  - right.
    change (Finite 5) with (Finite (inject_Z 5)).
    change (Finite 1) with (Finite (inject_Z 1)).
    cbn [Math_floor Math_min num_leb].
    rewrite Qle_bool_inject.
    destruct (5 <=? Qfloor q) eqn:H5; cbn [Math_max num_leb];
      rewrite Qle_bool_inject.
    + exists 5. split; [reflexivity | lia].
    + apply Z.leb_gt in H5. destruct (1 <=? Qfloor q) eqn:H1.
      * apply Z.leb_le in H1. exists (Qfloor q). split; [reflexivity | lia].
      * exists 1. split; [reflexivity | lia].
  - right. exists 5. split; [reflexivity | lia].
  - right. exists 1. split; [reflexivity | lia].
Qed.

Lemma rating_of_finite q :
  Math_max (Num (Finite 1)) (Math_min (Num (Finite 5)) (Math_floor (Num (Finite q))))
  = Num (Finite (inject_Z (Z.max 1 (Z.min 5 (Qfloor q))))).
Proof.
  change (Finite 5) with (Finite (inject_Z 5)).
  change (Finite 1) with (Finite (inject_Z 1)).
  cbn [Math_floor Math_min num_leb]. rewrite Qle_bool_inject.
  destruct (5 <=? Qfloor q) eqn:H5; cbn [Math_max num_leb];
    rewrite Qle_bool_inject.
  - apply Z.leb_le in H5. rewrite Z.min_l by lia. rewrite Z.max_r by lia. reflexivity.
  - apply Z.leb_gt in H5. rewrite Z.min_r by lia.
    destruct (1 <=? Qfloor q) eqn:H1.
    + apply Z.leb_le in H1. rewrite Z.max_r by lia. reflexivity.
    + apply Z.leb_gt in H1. rewrite Z.max_l by lia. reflexivity.
Qed.

(** X21. When the POST case of the reviews admin handler gets as far as its
    INSERT, the body has a truthy [author] and [text], and the six parameters
    are: the trimmed string of the author; the rating; the trimmed string of
    the text; the trimmed string of [image_url] when that is truthy, else
    NULL; the active flag, 0 exactly when [is_active] is [false], else 1; and
    the sort order, an integer. The rating is an integer from 1 to 5: for a
    JSON number, its floor brought into that range; or it is [NaN], which
    happens only when the body's [rating] is not a number. *)
Theorem review_post_rating_clamped E P body params :
  review_post_params E P body = Statement params ->
  exists av tv a t r img act so,
    params = [PStr (trim a); PNum r; PStr (trim t); img; PNum act; PNum so] /\
    (get_prop body "author" = Some av /\ truthy av = true /\ ToString E av = Some a) /\
    (get_prop body "text" = Some tv /\ truthy tv = true /\ ToString E tv = Some t) /\
    (r = NaN \/ exists z, r = Num (Finite (inject_Z z)) /\ 1 <= z <= 5) /\
    (forall q, get_prop body "rating" = Some (VNum (Finite q)) ->
       r = Num (Finite (inject_Z (Z.max 1 (Z.min 5 (Qfloor q)))))) /\
    (forall n, get_prop body "rating" = Some (VNum n) -> r <> NaN) /\
    match get_prop body "image_url" with
    | Some iv =>
        if truthy iv
        then exists u, ToString E iv = Some u /\ img = PStr (trim u)
        else img = PNull
    | None => img = PNull
    end /\
    (get_prop body "is_active" = Some (VBool false) -> act = Num (Finite 0)) /\
    (get_prop body "is_active" <> Some (VBool false) -> act = Num (Finite 1)) /\
    exists z, so = Num (Finite (inject_Z z)).
Proof.
  unfold review_post_params.
  assert (Hbody : body <> VNull -> 
    (let author := get_prop body "author" in
     let rating := get_prop body "rating" in
     let text := get_prop body "text" in
     let image_url := get_prop body "image_url" in
     if negb (truthy_prop author) || negb (not_nullish rating)
        || negb (truthy_prop text)
     then Refused 400 "Author, rating, and text are required"
     else
       match rating_of E P rating, sort_order_of E P (get_prop body "sort_order"),
             ToString E (or_null author), ToString E (or_null text),
             trimmed_or_null E image_url with
       | Some r, Some sortOrder, Some a, Some t, Some img =>
           Statement
             [PStr (trim a); PNum r; PStr (trim t); img;
              PNum (Num (Finite (match get_prop body "is_active" with
                                 | Some (VBool false) => 0
                                 | _ => 1
                                 end)));
              PNum sortOrder]
       | _, _, _, _, _ => Refused 500 "An error occurred"
       end) = Statement params ->
    exists av tv a t r img act so,
      params = [PStr (trim a); PNum r; PStr (trim t); img; PNum act; PNum so] /\
      (get_prop body "author" = Some av /\ truthy av = true /\ ToString E av = Some a) /\
      (get_prop body "text" = Some tv /\ truthy tv = true /\ ToString E tv = Some t) /\
      (r = NaN \/ exists z, r = Num (Finite (inject_Z z)) /\ 1 <= z <= 5) /\
      (forall q, get_prop body "rating" = Some (VNum (Finite q)) ->
         r = Num (Finite (inject_Z (Z.max 1 (Z.min 5 (Qfloor q)))))) /\
      (forall n, get_prop body "rating" = Some (VNum n) -> r <> NaN) /\
      match get_prop body "image_url" with
      | Some iv =>
          if truthy iv
          then exists u, ToString E iv = Some u /\ img = PStr (trim u)
          else img = PNull
      | None => img = PNull
      end /\
      (get_prop body "is_active" = Some (VBool false) -> act = Num (Finite 0)) /\
      (get_prop body "is_active" <> Some (VBool false) -> act = Num (Finite 1)) /\
      exists z, so = Num (Finite (inject_Z z))).
  { intros _. cbv zeta.
    destruct (get_prop body "author") as [av|] eqn:Hav; [|discriminate].
    cbn [truthy_prop].
    destruct (truthy av) eqn:Htav; [|discriminate]. cbn [negb orb].
    destruct (not_nullish (get_prop body "rating")) eqn:Hrn; [|discriminate].
    cbn [negb orb].
    destruct (get_prop body "text") as [tv|] eqn:Htv; [|discriminate].
    cbn [truthy_prop].
    destruct (truthy tv) eqn:Httv; [|discriminate]. cbn [negb].
    change (or_null (Some av)) with av. change (or_null (Some tv)) with tv.
    unfold rating_of, sort_order_of.
    destruct (ToNumber E P (get_prop body "rating")) as [rn|] eqn:Hr; [|discriminate].
    destruct (ToNumber E P (get_prop body "sort_order")) as [sn|] eqn:Hso;
      [|discriminate].
    destruct (ToString E av) as [a|] eqn:Ha; [|discriminate].
    destruct (ToString E tv) as [t|] eqn:Ht; [|discriminate].
    destruct (trimmed_or_null E (get_prop body "image_url")) as [img|] eqn:Himg;
      [|discriminate].
    intros [= <-]. exists av, tv, a, t. eexists _, img, _, _.
    split; [reflexivity|]. split; [auto|]. split; [auto|].
    split; [apply rating_in_range|]. split; [|split; [|split; [|split; [|split]]]].
    - intros q Hq. rewrite Hq in Hr. cbn [ToNumber] in Hr. injection Hr as <-.
      apply rating_of_finite.
    - intros n Hn. rewrite Hn in Hr. cbn [ToNumber] in Hr. injection Hr as <-.
      destruct n as [q| |]; cbn;
        repeat match goal with
               | |- context [if ?c then _ else _] => destruct c
               end; discriminate.
    - unfold trimmed_or_null in Himg.
      destruct (get_prop body "image_url") as [iv|]; cbn [truthy_prop] in Himg.
      + destruct (truthy iv).
        * change (or_null (Some iv)) with iv in Himg.
          destruct (ToString E iv) as [u|]; [|discriminate].
          injection Himg as <-. exists u. auto.
        * injection Himg as <-. reflexivity.
      + injection Himg as <-. reflexivity.
    - intros ->. reflexivity.
    - intros Hne. destruct (get_prop body "is_active") as [[|[]| | | |]|];
        first [reflexivity | congruence].
    - destruct sn as [|[q| |]]; cbn [Number_isFinite Math_floor];
        [exists 0 | eexists | exists 0 | exists 0]; reflexivity. }
  destruct body; [discriminate|..]; apply Hbody; discriminate.
Qed.

Lemma review_post_rating_clamped_witness :
  review_post_params Sample.E More.P
    (VObj [("author", VStr " Ann "); ("rating", VNum (Finite 9)); ("text", VStr "ok ");
           ("image_url", VStr " /a.png")])
  = Statement [PStr "Ann"; PNum (Num (Finite 5)); PStr "ok"; PStr "/a.png";
               PNum (Num (Finite 1)); PNum (Num (Finite 0))].
Proof.
  destruct (review_post_rating_clamped Sample.E More.P
              (VObj [("author", VStr " Ann "); ("rating", VNum (Finite 9));
                     ("text", VStr "ok "); ("image_url", VStr " /a.png")]) _ eq_refl)
    as (av & tv & a & t & r & img & act & so & _).
  vm_compute. reflexivity.
Defined.
